(** * MakerPsm: pricing, event application and state lookup

    A shallow embedding of [src/dex/maker-psm/maker-psm.ts].

    Conventions of the embedding.
    - A TypeScript [bigint] is a [Z].  The bigint operator [/] truncates
      toward zero and throws a [RangeError] on a zero divisor: it is
      [bigDiv], built on [Z.quot], in the [option] monad, where [None]
      stands for "an exception is thrown".
    - Amounts that travel as decimal strings ([srcAmount], [destAmount],
      [gemAmount], [toll]) are taken as the integers they denote.
    - [PoolState] is the five-field object read from the chain. *)

From Stdlib Require Import ZArith Lia Bool Ascii String.
From stdpp Require Import base option list gmap strings.

Local Open Scope Z_scope.

(** ** Constants and arithmetic helpers *)

Definition WAD : Z := 10 ^ 18.
Definition BN0 : Z := 0.
Definition BN1 : Z := 1.
Definition BN1E18 : Z := 10 ^ 18.

(** The bigint operator [a / b]. *)
Definition bigDiv (a b : Z) : option Z :=
  if b =? 0 then None else Some (a ÷ b).

(** [const ceilDiv = (a, b) => (a + b - BN1) / b]. *)
Definition ceilDiv (a b : Z) : option Z := bigDiv (a + b - BN1) b.

(** ** Data model *)

Inductive SwapSide : Type := SELL | BUY.

Record PoolState : Type := mkPoolState {
  tin : Z;
  tout : Z;
  Art : Z;
  line : Z;
  rate : Z
}.

(** [BigInt(10) ** BigInt(18 - decimals)]: a negative exponent throws. *)
Definition to18ConversionFactor (decimals : Z) : option Z :=
  if 18 - decimals <? 0 then None else Some (10 ^ (18 - decimals)).

(** ** Pricing engine *)

Definition sellGemCheck (poolState : PoolState) (dart : Z) : bool :=
  (dart + Art poolState) * rate poolState <=? line poolState.

Definition buyGemCheck (poolState : PoolState) (dart : Z) : bool :=
  dart <=? Art poolState.

(** The callback that [computePrices] maps over [amounts]. *)
Definition computePrice (isSrcDai : bool) (to18 : Z) (side : SwapSide)
    (poolState : PoolState) (a : Z) : option Z :=
  match side with
  | SELL =>
      if isSrcDai then
        gemAmt18 ← bigDiv (a * WAD) (WAD + tout poolState);
        if buyGemCheck poolState gemAmt18 then bigDiv gemAmt18 to18
        else Some BN0
      else
        let gemAmt18 := to18 * a in
        if sellGemCheck poolState gemAmt18 then
          fee ← bigDiv (gemAmt18 * tin poolState) WAD;
          Some (gemAmt18 - fee)
        else Some BN0
  | BUY =>
      if isSrcDai then
        let gemAmt18 := to18 * a in
        if buyGemCheck poolState gemAmt18 then
          fee ← bigDiv (gemAmt18 * tout poolState) WAD;
          Some (gemAmt18 + fee)
        else Some BN0
      else
        gemAmt18 ← bigDiv (a * WAD) (WAD - tin poolState);
        if sellGemCheck poolState gemAmt18 then bigDiv gemAmt18 to18
        else Some BN0
  end.

Definition computePrices (isSrcDai : bool) (to18 : Z) (side : SwapSide)
    (amounts : list Z) (poolState : PoolState) : option (list Z) :=
  mapM (computePrice isSrcDai to18 side poolState) amounts.

(** ** Event log applier *)

(** A decoded log (ethers' [LogDescription]): the event name and the
    arguments the handlers read.  [what] is the bytes32 value as the
    hex string ethers yields; [data] and [value] are uint256 values,
    already through [bigIntify]. *)
Record EventArgs : Type := mkEventArgs {
  what : string;
  data : Z;
  value : Z
}.

Record Event : Type := mkEvent {
  name : string;
  args : EventArgs
}.

Record Log : Type := mkLog {
  address : string;
  topics : list string;
  logData : string
}.

Definition bytes32Tout : string :=
  "0x746f757400000000000000000000000000000000000000000000000000000000".
Definition bytes32Tin : string :=
  "0x74696e0000000000000000000000000000000000000000000000000000000000".

(** The handlers assign to a field of [pool] and return [pool]: the
    result is the new content of that one object. *)
Definition handleFile (event : Event) (pool : PoolState) : PoolState :=
  if String.eqb (what (args event)) bytes32Tin then
    mkPoolState (data (args event)) (tout pool) (Art pool) (line pool)
      (rate pool)
  else if String.eqb (what (args event)) bytes32Tout then
    mkPoolState (tin pool) (data (args event)) (Art pool) (line pool)
      (rate pool)
  else pool.

Definition handleSellGem (to18 : Z) (event : Event) (pool : PoolState)
    : PoolState :=
  mkPoolState (tin pool) (tout pool)
    (Art pool + value (args event) * to18) (line pool) (rate pool).

Definition handleBuyGem (to18 : Z) (event : Event) (pool : PoolState)
    : PoolState :=
  mkPoolState (tin pool) (tout pool)
    (Art pool - value (args event) * to18) (line pool) (rate pool).

(** [this.handlers], filled by the constructor.  The names the decoder
    yields are event names of the PSM interface, none of them a
    property that every object inherits, so [event.name in
    this.handlers] is a lookup among the three keys stored here. *)
Definition handlers (to18 : Z) : gmap string (Event -> PoolState -> PoolState) :=
  <["BuyGem" := handleBuyGem to18]>
    (<["SellGem" := handleSellGem to18]>
      (<["File" := handleFile]> ∅)).

(** [processLog].  [logDecoder] is [psmInterface.parseLog]; [None] is a
    decoder that throws.  The first component is the value returned
    ([None] for [null]); the second is the content of the object passed
    as [state] once the call is over, since a handler writes into that
    very object. *)
Definition processLog (logDecoder : Log -> option Event) (to18 : Z)
    (state : PoolState) (log : Log) : option PoolState * PoolState :=
  match logDecoder log with
  | Some event =>
      match handlers to18 !! name event with
      | Some handler =>
          let state' := handler event state in (Some state', state')
      | None => (Some state, state)
      end
  | None => (None, state)
  end.

(** ** Quote record and execution parameters *)

Definition lowerAscii (c : ascii) : ascii :=
  let n := nat_of_ascii c in
  if ((65 <=? n) && (n <=? 90))%nat then ascii_of_nat (n + 32) else c.

Fixpoint toLowerCase (s : string) : string :=
  match s with
  | EmptyString => EmptyString
  | String c r => String (lowerAscii c) (toLowerCase r)
  end.

Record Token : Type := mkToken {
  tokenAddress : string;
  decimals : Z
}.

Record PoolConfig : Type := mkPoolConfig {
  gem : Token;
  psmAddress : string;
  gemJoinAddress : string;
  identifier : string
}.

Record MakerPsmData : Type := mkMakerPsmData {
  toll : Z;
  dataPsmAddress : string;
  dataGemJoinAddress : string;
  gemDecimals : Z
}.

Record PoolPrices : Type := mkPoolPrices {
  prices : list Z;
  unit_ : Z;
  poolData : MakerPsmData
}.

(** [BigInt(10 ** decimals)].  The power is taken on Numbers.  Below
    zero it is a fraction and [BigInt] throws; up to 22 it is the exact
    integer power, which covers every token; above 22 it is no longer
    exact and the model gives no value. *)
Definition unitVolume (decimals : Z) : option Z :=
  if (0 <=? decimals) && (decimals <=? 22) then Some (10 ^ decimals)
  else None.

(** [getPricesVolume], from the point where the event pool and its
    state are known: [poolConfig] and [to18] are the fields of the
    resolved event pool, [poolState] the state awaited from
    [getPoolState]. *)
Definition getPricesVolume (dai : string) (srcToken destToken : Token)
    (amounts : list Z) (side : SwapSide) (poolConfig : PoolConfig)
    (to18 : Z) (poolState : PoolState) : option PoolPrices :=
  uv ← unitVolume
         (decimals (match side with SELL => srcToken | BUY => destToken end));
  let isSrcDai := String.eqb (toLowerCase (tokenAddress srcToken)) dai in
  let gem := if isSrcDai then destToken else srcToken in
  let toll :=
    if match side with SELL => isSrcDai | BUY => negb isSrcDai end
    then tout poolState else tin poolState in
  res ← computePrices isSrcDai to18 side (uv :: amounts) poolState;
  match res with
  | unit :: prices =>
      Some (mkPoolPrices prices unit
              (mkMakerPsmData toll (psmAddress poolConfig)
                 (gemJoinAddress poolConfig) (decimals gem)))
  | [] => None
  end.

Record PsmParams : Type := mkPsmParams {
  isGemSell : bool;
  gemAmount : Z
}.

Definition getPsmParams (dai : string) (srcToken : string)
    (srcAmount destAmount : Z) (data : MakerPsmData) (side : SwapSide)
    : option PsmParams :=
  let isSrcDai := String.eqb (toLowerCase srcToken) dai in
  to18 ← to18ConversionFactor (gemDecimals data);
  match side with
  | SELL =>
      if isSrcDai then
        gemAmt18 ← bigDiv (srcAmount * WAD) (WAD + toll data);
        gemAmt ← bigDiv gemAmt18 to18;
        Some (mkPsmParams false gemAmt)
      else Some (mkPsmParams true srcAmount)
  | BUY =>
      if isSrcDai then Some (mkPsmParams false destAmount)
      else
        gemAmt ← ceilDiv (destAmount * WAD) ((WAD - toll data) * to18);
        Some (mkPsmParams true gemAmt)
  end.

(** ** Liquidity figure *)

(** A JavaScript Number that holds an integer.  Every integer of
    magnitude at most [2 ^ 53] is a Number, and so is its double; a
    larger integer is rounded when it is converted, which the model
    records as [Rounded] without fixing the value. *)
Inductive Number : Type :=
| Exact (z : Z)
| Rounded.

(** [parseInt(q.toString())] for a bigint [q]. *)
Definition parseInt (q : Z) : Number :=
  if Z.abs q <=? 2 ^ 53 then Exact q else Rounded.

(** [2 * n] on Numbers. *)
Definition twice (n : Number) : Number :=
  match n with
  | Exact z => Exact (2 * z)
  | Rounded => Rounded
  end.

Definition minLiq (poolState : PoolState) : option Number :=
  let buyLimit := Art poolState in
  sellLimit ← bigDiv (line poolState - Art poolState * rate poolState)
                 (rate poolState);
  q ← bigDiv (if sellLimit <? buyLimit then sellLimit else buyLimit) BN1E18;
  Some (twice (parseInt q)).

Record PoolLiquidity : Type := mkPoolLiquidity {
  liqAddress : string;
  liquidityUSD : Number;
  connectorTokens : list Token
}.

(** [this.eventPools], keyed by the lower-cased gem address; the
    constructor's [forEach] lets a later configuration replace an
    earlier one with the same key. *)
Definition eventPools (poolConfigs : list PoolConfig) : gmap string PoolConfig :=
  foldl (fun m p => <[toLowerCase (tokenAddress (gem p)) := p]> m) ∅
    poolConfigs.

(** [getTopPoolsForToken]; [latest] is the result of the on-chain read
    at block 'latest' for a pool.  The [limit] argument is not read by
    the source. *)
Definition getTopPoolsForToken (dai : Token) (poolConfigs : list PoolConfig)
    (latest : PoolConfig -> PoolState) (tokenAddr : string) (limit : nat)
    : option (list PoolLiquidity) :=
  let _tokenAddress := toLowerCase tokenAddr in
  let isDai := String.eqb _tokenAddress (tokenAddress dai) in
  let validPoolConfigs :=
    if isDai then poolConfigs
    else match eventPools poolConfigs !! _tokenAddress with
         | Some p => [p]
         | None => []
         end in
  mapM (fun p =>
          liq ← minLiq (latest p);
          Some (mkPoolLiquidity (psmAddress p) liq
                  [if isDai then gem p else dai]))
       validPoolConfigs.

(** ** State lookup: [getPoolState] *)

(** Modelled from the spec: [StatefulEventSubscriber], the base class
    that owns [getState] and [setState], is not among the sources.  The
    two follow the Snapshot Store of the specification: [setState] puts
    a snapshot at a block and overwrites, [getState] is an exact-match
    lookup. *)
Definition getState (store : gmap Z PoolState) (blockNumber : Z)
    : option PoolState :=
  store !! blockNumber.

(** Modelled from the spec: [setState] of the same absent base class,
    the store's [put]: it writes the snapshot at the block and replaces
    what was there. *)
Definition setState (store : gmap Z PoolState) (state : PoolState)
    (blockNumber : Z) : gmap Z PoolState :=
  <[blockNumber := state]> store.

(** The event pool as [getPoolState] sees it: its snapshot store, and a
    count of the on-chain reads issued through [generateState]. *)
Record PoolObject : Type := mkPoolObject {
  store : gmap Z PoolState;
  chainReads : nat
}.

(** One invocation of the async function [getPoolState].  It runs up to
    its [await] when it is called, and from the [await] to its [return]
    when the read resolves. *)
Inductive Invocation : Type :=
| Called (blockNumber : Z)
| AwaitingRead (blockNumber : Z)
| Returned (state : PoolState).

(** [chain blockNumber] is what [generateState] reads at that block. *)
Definition resume (chain : Z -> PoolState) (pool : PoolObject)
    (inv : Invocation) : PoolObject * Invocation :=
  match inv with
  | Called blockNumber =>
      match getState (store pool) blockNumber with
      | Some eventState => (pool, Returned eventState)
      | None =>
          (mkPoolObject (store pool) (S (chainReads pool)),
           AwaitingRead blockNumber)
      end
  | AwaitingRead blockNumber =>
      let onChainState := chain blockNumber in
      (mkPoolObject (setState (store pool) onChainState blockNumber)
         (chainReads pool),
       Returned onChainState)
  | Returned state => (pool, Returned state)
  end.

(** The event loop: [schedule] lists, in order, which invocation runs
    its next segment. *)
Fixpoint runSchedule (chain : Z -> PoolState) (schedule : list nat)
    (pool : PoolObject) (invs : list Invocation)
    : PoolObject * list Invocation :=
  match schedule with
  | [] => (pool, invs)
  | i :: rest =>
      match invs !! i with
      | Some inv =>
          let '(pool', inv') := resume chain pool inv in
          runSchedule chain rest pool' (<[i := inv']> invs)
      | None => runSchedule chain rest pool invs
      end
  end.

(** ** Notions used by the properties *)

(** The gem amount, in 18 decimals, that a price computation works
    with on each of its four paths. *)
Definition gemAmt18 (isSrcDai : bool) (to18 : Z) (side : SwapSide)
    (poolState : PoolState) (a : Z) : option Z :=
  match side, isSrcDai with
  | SELL, true => bigDiv (a * WAD) (WAD + tout poolState)
  | SELL, false => Some (to18 * a)
  | BUY, true => Some (to18 * a)
  | BUY, false => bigDiv (a * WAD) (WAD - tin poolState)
  end.

(** The feasible region: the amounts that pass the check of their path. *)
Definition feasible (isSrcDai : bool) (to18 : Z) (side : SwapSide)
    (poolState : PoolState) (a : Z) : bool :=
  match gemAmt18 isSrcDai to18 side poolState a with
  | Some g =>
      if isSrcDai then buyGemCheck poolState g else sellGemCheck poolState g
  | None => false
  end.

(** The debt after the trade: a gem sold to the pool adds to [Art], a
    gem bought from it is taken off, as the two event handlers do. *)
Definition postTradeDebt (isSrcDai : bool) (to18 : Z) (side : SwapSide)
    (poolState : PoolState) (a : Z) : option Z :=
  g ← gemAmt18 isSrcDai to18 side poolState a;
  Some (if isSrcDai then Art poolState - g else Art poolState + g).

(** A valid snapshot: five unsigned integers, a sell fee below 100%,
    and a debt within its ceiling. *)
Definition valid_snapshot (s : PoolState) : Prop :=
  0 <= tin s < WAD /\ 0 <= tout s /\ 0 <= Art s /\ 0 <= line s /\
  0 <= rate s /\ Art s * rate s <= line s.

(** The liquidity estimate as the specification words it: twice the
    smaller limit over [1e18], the whole rounded down. *)
Definition liquidityEstimate_spec (s : PoolState) : Z :=
  2 * Z.min (Art s) ((line s - Art s * rate s) / rate s) / 10 ^ 18.

(** ** Pool identifiers and the registry of event pools *)

(** [getIdentifer] of an event pool whose parent is [parentName]. *)
Definition getIdentifer (parentName : string) (poolConfig : PoolConfig)
    : string :=
  toLowerCase
    (String.append parentName (String.append "_" (psmAddress poolConfig))).

(** [getEventPool]; [pools] is [this.eventPools].  Token addresses are
    0x-prefixed hex strings, none of them the name of a property that
    every object inherits, so [this.eventPools[a]] is a lookup among the
    stored keys.  [x && y || z] yields [y] when [x] holds and [y] is a
    pool, and goes on to [z] otherwise. *)
Definition getEventPool (dai : Token) (pools : gmap string PoolConfig)
    (srcToken destToken : Token) : option PoolConfig :=
  let srcAddress := toLowerCase (tokenAddress srcToken) in
  let destAddress := toLowerCase (tokenAddress destToken) in
  match (if String.eqb srcAddress (tokenAddress dai)
         then pools !! destAddress else None) with
  | Some eventPool => Some eventPool
  | None =>
      if String.eqb destAddress (tokenAddress dai)
      then pools !! srcAddress else None
  end.

Definition getPoolIdentifiers (dexKey : string) (dai : Token)
    (pools : gmap string PoolConfig) (srcToken destToken : Token)
    : list string :=
  match getEventPool dai pools srcToken destToken with
  | None => []
  | Some eventPool => [getIdentifer dexKey eventPool]
  end.

(** ** Reading the state from the chain *)

Inductive BlockTag : Type :=
| BlockNumber (n : Z)
| Latest.

(** What [encodeFunctionData] is asked to encode. *)
Inductive FunctionData : Type :=
| TinCall
| ToutCall
| IlksCall (ilk : string).

Record Call : Type := mkCall {
  target : string;
  callData : FunctionData
}.

(** The fields [getOnChainState] reads off a decoded [ilks] result. *)
Record Ilk : Type := mkIlk {
  ilkArt : Z;
  ilkLine : Z;
  ilkRate : Z
}.

(** [decodeFunctionResult] of the two interfaces, for the three
    functions called; [None] is a decoder that throws. *)
Record Decoder : Type := mkDecoder {
  decodeTin : string -> option Z;
  decodeTout : string -> option Z;
  decodeIlks : string -> option Ilk
}.

(** The [callData] array of [getOnChainState]: three calls per pool,
    flattened. *)
Definition getOnChainState_callData (poolConfigs : list PoolConfig)
    (vatAddress : string) : list Call :=
  concat
    (map (fun c =>
            [mkCall (psmAddress c) TinCall;
             mkCall (psmAddress c) ToutCall;
             mkCall vatAddress (IlksCall (identifier c))])
       poolConfigs).

(** The second [map] of [getOnChainState], with its counter [i]: each
    pool takes the next three entries of [res.returnData].  An entry
    that is missing, or that does not decode, throws. *)
Fixpoint getOnChainState_decode (dec : Decoder) (returnData : list string)
    (i : nat) (poolConfigs : list PoolConfig) : option (list PoolState) :=
  match poolConfigs with
  | [] => Some []
  | c :: rest =>
      tin ← returnData !! i ≫= decodeTin dec;
      tout ← returnData !! S i ≫= decodeTout dec;
      ilks ← returnData !! S (S i) ≫= decodeIlks dec;
      states ← getOnChainState_decode dec returnData (S (S (S i))) rest;
      Some (mkPoolState tin tout (ilkArt ilks) (ilkLine ilks) (ilkRate ilks)
              :: states)
  end.

(** [getOnChainState]; [aggregate] is the multicall contract's
    [aggregate(callData).call({}, blockNumber)], [None] when the call
    is rejected. *)
Definition getOnChainState
    (aggregate : list Call -> BlockTag -> option (list string))
    (dec : Decoder) (poolConfigs : list PoolConfig) (vatAddress : string)
    (blockNumber : BlockTag) : option (list PoolState) :=
  returnData ← aggregate (getOnChainState_callData poolConfigs vatAddress)
                 blockNumber;
  getOnChainState_decode dec returnData 0 poolConfigs.

(** [generateState]: the first state of a read for the pool alone. *)
Definition generateState
    (aggregate : list Call -> BlockTag -> option (list string))
    (dec : Decoder) (poolConfig : PoolConfig) (vatAddress : string)
    (blockNumber : Z) : option PoolState :=
  states ← getOnChainState aggregate dec [poolConfig] vatAddress
             (BlockNumber blockNumber);
  states !! 0%nat.

(** ** Call data for the simple-swap routers *)

Inductive PsmFunction : Type := sellGem | buyGem.

(** What [getSimpleParam] hands on: the PSM function it encodes with
    its two arguments, and the last two arguments it passes to
    [buildSimpleParamWithoutWETHConversion]. *)
Record SimpleParamInput : Type := mkSimpleParamInput {
  swapFunction : PsmFunction;
  swapUsr : string;
  swapGemAmount : Z;
  sixthArgument : string;
  seventhArgument : string
}.

Definition getSimpleParam (dai augustusAddress : string) (srcToken : string)
    (srcAmount destAmount : Z) (data : MakerPsmData) (side : SwapSide)
    : option SimpleParamInput :=
  params ← getPsmParams dai srcToken srcAmount destAmount data side;
  Some (mkSimpleParamInput
          (if isGemSell params then sellGem else buyGem)
          augustusAddress (gemAmount params)
          (dataPsmAddress data)
          (if isGemSell params then dataGemJoinAddress data
           else dataPsmAddress data)).

(** ** Notions used by the further properties *)

(** The native asset amount that changes hands in a quoted trade: the
    amount given when the asset is what is specified, the quote
    otherwise. *)
Definition tradedGem (isSrcDai : bool) (side : SwapSide) (a quote : Z) : Z :=
  match side, isSrcDai with
  | SELL, false | BUY, true => a
  | SELL, true | BUY, false => quote
  end.

(** The number of invocations that have not run their first segment. *)
Fixpoint notStarted (invs : list Invocation) : nat :=
  match invs with
  | [] => 0%nat
  | Called _ :: rest => S (notStarted rest)
  | _ :: rest => notStarted rest
  end.

(** ** Basic facts *)

Lemma WAD_pos : 0 < WAD.
Proof. reflexivity. Qed.

Lemma bigDiv_nonzero a b : b <> 0 -> bigDiv a b = Some (a ÷ b).
Proof.
  intros Hb. unfold bigDiv.
  destruct (Z.eqb_spec b 0); [contradiction | reflexivity].
Qed.

Lemma bigDiv_zero a : bigDiv a 0 = None.
Proof. reflexivity. Qed.

Lemma bigDiv_WAD a : bigDiv a WAD = Some (a ÷ WAD).
Proof. apply bigDiv_nonzero. discriminate. Qed.

Lemma to18ConversionFactor_pos d f :
  to18ConversionFactor d = Some f -> 1 <= f.
Proof.
  unfold to18ConversionFactor.
  destruct (Z.ltb_spec (18 - d) 0) as [Hlt | Hge]; [discriminate |].
  intros [= <-].
  pose proof (Z.pow_pos_nonneg 10 (18 - d) ltac:(lia) Hge). lia.
Qed.

Lemma to18ConversionFactor_le18 d :
  d <= 18 -> to18ConversionFactor d = Some (10 ^ (18 - d)).
Proof.
  intros Hd. unfold to18ConversionFactor.
  destruct (Z.ltb_spec (18 - d) 0); [lia | reflexivity].
Qed.

Example ex_scenario_sell_dai :
  computePrice true 1 SELL
    (mkPoolState 0 0 (1000000 * 10 ^ 18) (5000000 * 10 ^ 18) (10 ^ 18))
    (100 * 10 ^ 18) = Some (100 * 10 ^ 18).
Proof. reflexivity. Qed.

Example ex_scenario_buy_dai :
  computePrice true 1 BUY
    (mkPoolState 0 (10 ^ 15) (1000000 * 10 ^ 18) (5000000 * 10 ^ 18) (10 ^ 18))
    (1000 * 10 ^ 18) = Some (1001 * 10 ^ 18).
Proof. reflexivity. Qed.

Lemma mapM_pointwise {A B : Type} (f : A -> option B) (g : A -> B) (l : list A) :
  (forall a, f a = Some (g a)) -> mapM f l = Some (map g l).
Proof.
  intros Hfg. induction l as [| x l IH]; [reflexivity |].
  cbn. rewrite Hfg. cbn. rewrite IH. reflexivity.
Qed.

Lemma mapM_head_None {A B : Type} (f : A -> option B) (x : A) (l : list A) :
  f x = None -> mapM f (x :: l) = None.
Proof. intros Hx. cbn. rewrite Hx. reflexivity. Qed.

(** ** The four paths of [computePrice], one equation each *)

Lemma computePrice_SELL_dai s f a :
  WAD + tout s <> 0 ->
  computePrice true f SELL s a =
    let g := (a * WAD) ÷ (WAD + tout s) in
    if g <=? Art s then bigDiv g f else Some 0.
Proof.
  intros Hd. unfold computePrice. rewrite (bigDiv_nonzero _ _ Hd).
  reflexivity.
Qed.

Lemma computePrice_SELL_gem s f a :
  computePrice false f SELL s a =
    let g := f * a in
    if (g + Art s) * rate s <=? line s
    then Some (g - (g * tin s) ÷ WAD) else Some 0.
Proof.
  unfold computePrice. cbv zeta. rewrite bigDiv_WAD. reflexivity.
Qed.

Lemma computePrice_BUY_dai s f a :
  computePrice true f BUY s a =
    let g := f * a in
    if g <=? Art s then Some (g + (g * tout s) ÷ WAD) else Some 0.
Proof.
  unfold computePrice. cbv zeta. rewrite bigDiv_WAD. reflexivity.
Qed.

Lemma computePrice_BUY_gem s f a :
  WAD - tin s <> 0 ->
  computePrice false f BUY s a =
    let g := (a * WAD) ÷ (WAD - tin s) in
    if (g + Art s) * rate s <=? line s then bigDiv g f else Some 0.
Proof.
  intros Hd. unfold computePrice. rewrite (bigDiv_nonzero _ _ Hd).
  reflexivity.
Qed.

(** ** Stable to asset, sell side *)

(** Claim C2.  For every snapshot (unsigned fields) and every stable
    input amount, the Stable->Asset sell-side computation yields, per
    amount, [assetOut18 = amountIn18 * W / (W + buyFeeRate)] with the
    truncating division, divided down to the asset's native decimals,
    when [assetOut18 <= assetDebt], and the zero sentinel when
    [assetOut18 > assetDebt]; it never throws. *)
Theorem computePrices_sell_stable_to_asset
    (s : PoolState) (d f : Z) (amounts : list Z) :
  0 <= tout s ->
  to18ConversionFactor d = Some f ->
  computePrices true f SELL amounts s =
    Some (map (fun a =>
                 let assetOut18 := (a * WAD) ÷ (WAD + tout s) in
                 if assetOut18 <=? Art s then assetOut18 ÷ 10 ^ (18 - d)
                 else 0) amounts).
Proof.
  intros Htout Hf. unfold computePrices.
  apply mapM_pointwise. intros a.
  pose proof (to18ConversionFactor_pos _ _ Hf) as Hpos.
  pose proof WAD_pos.
  rewrite computePrice_SELL_dai by lia. cbv zeta.
  destruct (_ <=? _); [| reflexivity].
  rewrite bigDiv_nonzero by lia.
  unfold to18ConversionFactor in Hf.
  destruct (18 - d <? 0); [discriminate |].
  injection Hf as <-. reflexivity.
Qed.

Lemma computePrices_sell_stable_to_asset_witness :
  computePrices true (10 ^ 12) SELL [100 * 10 ^ 18; 3 * 10 ^ 24]
    (mkPoolState 0 (10 ^ 15) (10 ^ 24) (5 * 10 ^ 51) (10 ^ 27)) =
  Some [99900099; 0].
Proof.
  apply (computePrices_sell_stable_to_asset
           (mkPoolState 0 (10 ^ 15) (10 ^ 24) (5 * 10 ^ 51) (10 ^ 27))
           6 (10 ^ 12) [100 * 10 ^ 18; 3 * 10 ^ 24]).
  - vm_compute. discriminate.
  - reflexivity.
Defined.

(** ** Asset to stable, sell side *)

(** Claim C3, as stated, fails on the all-zero snapshot (what the chain
    returns for a collateral type it does not know): the debt times the
    rate equals the ceiling, [0 * 0 = 0], and yet every positive amount
    passes [sellGemCheck]. *)
Lemma sell_at_ceiling_zero_rate_feasible :
  ~ (forall (s : PoolState) (a : Z),
       Art s * rate s = line s -> 0 < a ->
       computePrices false 1 SELL [a] s = Some [0]).
Proof.
  intros H.
  specialize (H (mkPoolState 0 0 0 0 0) 1 eq_refl eq_refl).
  vm_compute in H. discriminate H.
Qed.

(** Claim C3, amended.  For every snapshot and every asset input
    amount, the Asset->Stable sell-side computation yields, per amount,
    [stableOut18 = assetIn18 - assetIn18 * sellFeeRate / W] when
    [(assetIn18 + assetDebt) * debtScaleRate <= debtCeiling] and the
    zero sentinel otherwise, with [assetIn18] the amount scaled up to 18
    decimals; and when [debtScaleRate] is positive and
    [assetDebt * debtScaleRate] equals [debtCeiling], every positive
    amount gets the zero sentinel. *)
Theorem computePrices_sell_asset_to_stable
    (s : PoolState) (d f : Z) (amounts : list Z) :
  to18ConversionFactor d = Some f ->
  computePrices false f SELL amounts s =
    Some (map (fun a =>
                 let assetIn18 := 10 ^ (18 - d) * a in
                 if (assetIn18 + Art s) * rate s <=? line s
                 then assetIn18 - (assetIn18 * tin s) ÷ WAD
                 else 0) amounts)
  /\ (0 < rate s /\ Art s * rate s = line s /\ Forall (fun a => 0 < a) amounts ->
      computePrices false f SELL amounts s = Some (map (fun _ => 0) amounts)).
Proof.
  intros Hf.
  pose proof (to18ConversionFactor_pos _ _ Hf) as Hpos.
  assert (f = 10 ^ (18 - d)) as Hfd.
  { unfold to18ConversionFactor in Hf.
    destruct (18 - d <? 0); [discriminate | congruence]. }
  split.
  - unfold computePrices. apply mapM_pointwise. intros a.
    rewrite computePrice_SELL_gem. cbv zeta. rewrite <- Hfd.
    destruct (_ <=? _); reflexivity.
  - intros (Hrate & Hfull & Hamounts). unfold computePrices.
    induction Hamounts as [| a l Ha _ IH]; [reflexivity |].
    cbn [mapM map]. rewrite IH, computePrice_SELL_gem. cbv zeta.
    destruct (Z.leb_spec ((f * a + Art s) * rate s) (line s)) as [Hle | Hgt];
      [| reflexivity].
    exfalso. nia.
Qed.

Lemma computePrices_sell_asset_to_stable_witness :
  let s := mkPoolState (10 ^ 15) 0 (5 * 10 ^ 24) (5 * 10 ^ 51) (10 ^ 27) in
  computePrices false (10 ^ 12) SELL [1; 2000000] s = Some [0; 0].
Proof.
  intros s.
  apply (proj2 (computePrices_sell_asset_to_stable s 6 (10 ^ 12) [1; 2000000]
                  eq_refl)).
  repeat split; try reflexivity.
  repeat constructor.
Defined.

Example ex_sell_asset_to_stable :
  computePrices false (10 ^ 12) SELL [2000000]
    (mkPoolState (10 ^ 15) 0 (10 ^ 24) (5 * 10 ^ 51) (10 ^ 27)) =
  Some [1998 * 10 ^ 15].
Proof. reflexivity. Qed.

(** ** Asset to stable, buy side *)

(** Claim C1 (the code departs from it).  On the Asset->Stable buy path
    [computePrices] divides with the truncating [/], not with
    [ceilDiv].  For a sell fee of 0.1%, an asset with 6 decimals and
    one unit of stable wanted, its 18-decimal amount is
    1001001001001001001, one below the quotient rounded up, and it
    quotes 1001001 native units; [getPsmParams], which does use
    [ceilDiv], sends 1001002 to the contract, and selling the quoted
    1001001 would yield less than the unit of stable asked for. *)
Theorem computePrices_buy_asset_to_stable_truncates :
  let s := mkPoolState (10 ^ 15) 0 0 (10 ^ 46) (10 ^ 27) in
  computePrices false (10 ^ 12) BUY [10 ^ 18] s = Some [1001001] /\
  gemAmt18 false (10 ^ 12) BUY s (10 ^ 18) = Some 1001001001001001001 /\
  ceilDiv (10 ^ 18 * WAD) (WAD - tin s) = Some 1001001001001001002 /\
  getPsmParams "0xdai" "0xusdc" 1001001 (10 ^ 18)
    (mkMakerPsmData (tin s) "0xpsm" "0xjoin" 6) BUY
    = Some (mkPsmParams true 1001002) /\
  computePrices false (10 ^ 12) SELL [1001001] s
    = Some [999999999000000000].
Proof. vm_compute. repeat split; reflexivity. Qed.

(** What the path computes, for every input: the truncated quotient and
    the ceiling test on it. *)
Lemma computePrices_buy_asset_to_stable (s : PoolState) (d f : Z)
    (amounts : list Z) :
  tin s < WAD ->
  to18ConversionFactor d = Some f ->
  computePrices false f BUY amounts s =
    Some (map (fun a =>
                 let assetIn18 := (a * WAD) ÷ (WAD - tin s) in
                 if (assetIn18 + Art s) * rate s <=? line s
                 then assetIn18 ÷ f else 0) amounts).
Proof.
  intros Htin Hf. unfold computePrices. apply mapM_pointwise. intros a.
  pose proof (to18ConversionFactor_pos _ _ Hf).
  rewrite computePrice_BUY_gem by lia. cbv zeta.
  destruct (_ <=? _); [| reflexivity].
  apply bigDiv_nonzero. lia.
Qed.

(** ** Totality of the pricing engine *)

Lemma computePrice_total (isSrcDai : bool) (f : Z) (side : SwapSide)
    (s : PoolState) (a : Z) :
  0 <= tout s -> tin s < WAD -> f <> 0 ->
  is_Some (computePrice isSrcDai f side s a).
Proof.
  intros Htout Htin Hf. pose proof WAD_pos.
  destruct side, isSrcDai.
  - rewrite computePrice_SELL_dai by lia. cbv zeta.
    destruct (_ <=? _); [rewrite bigDiv_nonzero by lia |]; eauto.
  - rewrite computePrice_SELL_gem. cbv zeta. destruct (_ <=? _); eauto.
  - rewrite computePrice_BUY_dai. cbv zeta. destruct (_ <=? _); eauto.
  - rewrite computePrice_BUY_gem by lia. cbv zeta.
    destruct (_ <=? _); [rewrite bigDiv_nonzero by lia |]; eauto.
Qed.

(** Claim C10.  For a snapshot with unsigned fees and
    [sellFeeRate < 10^18], and a pool whose asset has at most 18
    decimals, the three divisors that depend on the input are positive
    ([W + buyFeeRate], [W - sellFeeRate], and the conversion factor
    [10^(18-decimals) >= 1]) and [computePrices] returns one output per
    amount for every direction and side, without a division fault;
    with [sellFeeRate = 10^18] the Asset->Stable buy-side divisor is
    zero and the computation throws on its first amount instead of
    returning the zero sentinel. *)
Theorem computePrices_no_division_fault (s : PoolState) (d : Z) :
  0 <= tout s -> tin s < WAD -> d <= 18 ->
  (0 < WAD + tout s /\ 0 < WAD - tin s /\
   exists f, to18ConversionFactor d = Some f /\ 1 <= f /\
     forall (isSrcDai : bool) (side : SwapSide) (amounts : list Z),
     exists out, computePrices isSrcDai f side amounts s = Some out /\
                 length out = length amounts)
  /\ (forall (f a : Z) (rest : list Z) (tout' Art' line' rate' : Z),
        WAD - tin (mkPoolState WAD tout' Art' line' rate') = 0 /\
        computePrices false f BUY (a :: rest)
          (mkPoolState WAD tout' Art' line' rate') = None).
Proof.
  intros Htout Htin Hd. pose proof WAD_pos. split.
  - split; [lia |]. split; [lia |].
    exists (10 ^ (18 - d)).
    pose proof (to18ConversionFactor_le18 d Hd) as Hf.
    pose proof (to18ConversionFactor_pos _ _ Hf) as Hpos.
    split; [exact Hf |]. split; [exact Hpos |].
    intros isSrcDai side amounts. unfold computePrices.
    assert (is_Some (mapM (computePrice isSrcDai (10 ^ (18 - d)) side s) amounts))
      as [out Hout].
    { apply mapM_is_Some. apply Forall_forall. intros a _.
      apply computePrice_total; lia. }
    exists out. split; [exact Hout |].
    symmetry. eapply length_mapM. exact Hout.
  - intros f a rest tout' Art' line' rate'. split; [reflexivity |].
    unfold computePrices. apply mapM_head_None.
    unfold computePrice. cbn [tin]. rewrite Z.sub_diag. reflexivity.
Qed.

Lemma computePrices_no_division_fault_witness :
  exists out,
    computePrices false (10 ^ 12) BUY [10 ^ 18; 5 * 10 ^ 18]
      (mkPoolState (10 ^ 15) 0 (10 ^ 24) (5 * 10 ^ 51) (10 ^ 27)) = Some out /\
    length out = 2%nat.
Proof.
  destruct (computePrices_no_division_fault
              (mkPoolState (10 ^ 15) 0 (10 ^ 24) (5 * 10 ^ 51) (10 ^ 27)) 6)
    as [(_ & _ & f & Hf & _ & Hall) _].
  - vm_compute. discriminate.
  - reflexivity.
  - vm_compute. discriminate.
  - injection Hf as <-. apply (Hall false BUY [10 ^ 18; 5 * 10 ^ 18]).
Defined.

(** ** Event application *)

Lemma handlers_lookup (to18 : Z) (n : string) :
  handlers to18 !! n =
    if String.eqb n "BuyGem" then Some (handleBuyGem to18)
    else if String.eqb n "SellGem" then Some (handleSellGem to18)
    else if String.eqb n "File" then Some handleFile
    else None.
Proof.
  unfold handlers.
  destruct (String.eqb_spec n "BuyGem") as [-> | H1]; [apply lookup_insert_eq |].
  rewrite lookup_insert_ne by congruence.
  destruct (String.eqb_spec n "SellGem") as [-> | H2]; [apply lookup_insert_eq |].
  rewrite lookup_insert_ne by congruence.
  destruct (String.eqb_spec n "File") as [-> | H3]; [apply lookup_insert_eq |].
  rewrite lookup_insert_ne by congruence.
  apply lookup_empty.
Qed.

Lemma handlers_lookup_None (to18 : Z) (n : string) :
  n <> "File" -> n <> "SellGem" -> n <> "BuyGem" ->
  handlers to18 !! n = None.
Proof.
  intros H1 H2 H3. rewrite handlers_lookup.
  destruct (String.eqb_spec n "BuyGem"); [contradiction |].
  destruct (String.eqb_spec n "SellGem"); [contradiction |].
  destruct (String.eqb_spec n "File"); [contradiction | reflexivity].
Qed.

(** Claim C8.  [processLog] tells a decode failure from an event it
    does not handle: when decoding throws it returns [null] and leaves
    the state object as it was, writing no snapshot; when the log
    decodes to an event whose name has no handler it returns the input
    snapshot, unchanged. *)
Theorem processLog_decode_failure_vs_unhandled
    (logDecoder : Log -> option Event) (to18 : Z) (state : PoolState)
    (log : Log) :
  (logDecoder log = None ->
   processLog logDecoder to18 state log = (None, state)) /\
  (forall event, logDecoder log = Some event ->
     handlers to18 !! name event = None ->
     processLog logDecoder to18 state log = (Some state, state)).
Proof.
  unfold processLog. split.
  - intros ->. reflexivity.
  - intros event -> ->. reflexivity.
Qed.

Lemma processLog_decode_failure_vs_unhandled_witness :
  let state := mkPoolState 0 0 (10 ^ 24) (5 * 10 ^ 51) (10 ^ 27) in
  let log := mkLog "psm" ["0xdd"] "0x" in
  processLog (fun _ => None) (10 ^ 12) state log = (None, state) /\
  processLog (fun _ => Some (mkEvent "Rely" (mkEventArgs "" 0 0))) (10 ^ 12)
    state log = (Some state, state).
Proof.
  intros state log. split.
  - apply (proj1 (processLog_decode_failure_vs_unhandled
                    (fun _ => None) (10 ^ 12) state log)).
    reflexivity.
  - apply (proj2 (processLog_decode_failure_vs_unhandled
                    (fun _ => Some (mkEvent "Rely" (mkEventArgs "" 0 0)))
                    (10 ^ 12) state log)
             (mkEvent "Rely" (mkEventArgs "" 0 0))).
    + reflexivity.
    + apply handlers_lookup_None; discriminate.
Defined.

Lemma processLog_handled (logDecoder : Log -> option Event) (to18 : Z)
    (state : PoolState) (log : Log) (event : Event)
    (handler : Event -> PoolState -> PoolState) :
  logDecoder log = Some event ->
  handlers to18 !! name event = Some handler ->
  processLog logDecoder to18 state log =
    (Some (handler event state), handler event state).
Proof. unfold processLog. intros -> ->. reflexivity. Qed.

(** Claim C9.  Applying a [File] event with [what = 'tin'] and value
    [v] to any snapshot gives a snapshot whose [tin] is [v] and whose
    [tout], [Art], [line] and [rate] are those of the input. *)
Theorem handleFile_tin (event : Event) (pool : PoolState) :
  what (args event) = bytes32Tin ->
  handleFile event pool =
    mkPoolState (data (args event)) (tout pool) (Art pool) (line pool)
      (rate pool).
Proof.
  intros Hwhat. unfold handleFile. rewrite Hwhat.
  rewrite String.eqb_refl. reflexivity.
Qed.

Lemma handleFile_tin_witness :
  handleFile (mkEvent "File" (mkEventArgs bytes32Tin (10 ^ 15) 0))
    (mkPoolState 0 7 (10 ^ 24) (5 * 10 ^ 51) (10 ^ 27)) =
  mkPoolState (10 ^ 15) 7 (10 ^ 24) (5 * 10 ^ 51) (10 ^ 27).
Proof.
  apply (handleFile_tin (mkEvent "File" (mkEventArgs bytes32Tin (10 ^ 15) 0))
           (mkPoolState 0 7 (10 ^ 24) (5 * 10 ^ 51) (10 ^ 27))).
  reflexivity.
Defined.

(** ** Monotonicity and the debt ceiling *)

Lemma quot_fee_step (x y t : Z) :
  0 <= x <= y -> 0 <= t <= WAD ->
  (y * t) ÷ WAD - (x * t) ÷ WAD <= y - x.
Proof.
  intros Hxy Ht. pose proof WAD_pos as HW.
  rewrite !Z.quot_div_nonneg by nia.
  pose proof (Z.div_mod (x * t) WAD ltac:(lia)) as Ex.
  pose proof (Z.div_mod (y * t) WAD ltac:(lia)) as Ey.
  pose proof (Z.mod_pos_bound (x * t) WAD HW) as Bx.
  pose proof (Z.mod_pos_bound (y * t) WAD HW) as By.
  nia.
Qed.

Lemma postTradeDebt_handlers (isSrcDai : bool) (f : Z) (side : SwapSide)
    (s : PoolState) (a g : Z) (n : string) (w : string) (v : Z) :
  gemAmt18 isSrcDai f side s a = Some g ->
  postTradeDebt isSrcDai f side s a =
    Some (Art (if isSrcDai
               then handleBuyGem 1 (mkEvent n (mkEventArgs w v g)) s
               else handleSellGem 1 (mkEvent n (mkEventArgs w v g)) s)).
Proof.
  intros Hg. unfold postTradeDebt. rewrite Hg. cbn.
  destruct isSrcDai; cbn; f_equal; lia.
Qed.

(** Claim C4.  For every valid snapshot, direction and side, the
    per-amount output of [computePrices] is non-decreasing in the input
    amount over the feasible region, and it is the zero sentinel for
    every amount whose post-trade debt, times [debtScaleRate], exceeds
    [debtCeiling]. *)
Theorem computePrice_monotone_and_capped
    (isSrcDai : bool) (side : SwapSide) (s : PoolState) (d f : Z) :
  valid_snapshot s ->
  to18ConversionFactor d = Some f ->
  (forall a1 a2, 0 <= a1 <= a2 ->
     feasible isSrcDai f side s a1 = true ->
     feasible isSrcDai f side s a2 = true ->
     exists p1 p2,
       computePrice isSrcDai f side s a1 = Some p1 /\
       computePrice isSrcDai f side s a2 = Some p2 /\ p1 <= p2)
  /\ (forall a D, 0 <= a ->
        postTradeDebt isSrcDai f side s a = Some D ->
        line s < D * rate s ->
        computePrice isSrcDai f side s a = Some BN0).
Proof.
  intros (Htin & Htout & HArt & Hline & Hrate & Hinv) Hf.
  pose proof (to18ConversionFactor_pos _ _ Hf) as Hpos.
  pose proof WAD_pos as HW.
  unfold feasible, postTradeDebt, gemAmt18, buyGemCheck, sellGemCheck.
  destruct side, isSrcDai; cbv beta iota;
    (split; [intros a1 a2 Ha F1 F2 | intros a D Ha HD Hover]).
  - (* SELL, stable to asset: monotone *)
    rewrite bigDiv_nonzero in F1, F2 by lia.
    rewrite !computePrice_SELL_dai by lia. cbv zeta.
    rewrite F1, F2, !bigDiv_nonzero by lia.
    do 2 eexists. split; [reflexivity |]. split; [reflexivity |].
    apply Z.quot_le_mono; [lia |].
    apply Z.quot_le_mono; [lia | nia].
  - (* SELL, stable to asset: the debt only goes down *)
    rewrite bigDiv_nonzero in HD by lia. injection HD as <-.
    exfalso.
    assert (0 <= (a * WAD) ÷ (WAD + tout s)) by (apply Z.quot_pos; nia).
    nia.
  - (* SELL, asset to stable: monotone *)
    rewrite !computePrice_SELL_gem. cbv zeta. rewrite F1, F2.
    do 2 eexists. split; [reflexivity |]. split; [reflexivity |].
    pose proof (quot_fee_step (f * a1) (f * a2) (tin s)
                  ltac:(nia) ltac:(lia)).
    nia.
  - (* SELL, asset to stable: over the ceiling *)
    injection HD as <-.
    rewrite computePrice_SELL_gem. cbv zeta.
    destruct (Z.leb_spec ((f * a + Art s) * rate s) (line s));
      [exfalso; nia | reflexivity].
  - (* BUY, stable to asset: monotone *)
    rewrite !computePrice_BUY_dai. cbv zeta. rewrite F1, F2.
    do 2 eexists. split; [reflexivity |]. split; [reflexivity |].
    assert ((f * a1 * tout s) ÷ WAD <= (f * a2 * tout s) ÷ WAD)
      by (apply Z.quot_le_mono;
          [lia | apply Z.mul_le_mono_nonneg_r; [lia | nia]]).
    nia.
  - (* BUY, stable to asset: the debt only goes down *)
    injection HD as <-. exfalso. nia.
  - (* BUY, asset to stable: monotone *)
    rewrite bigDiv_nonzero in F1, F2 by lia.
    rewrite !computePrice_BUY_gem by lia. cbv zeta.
    rewrite F1, F2, !bigDiv_nonzero by lia.
    do 2 eexists. split; [reflexivity |]. split; [reflexivity |].
    apply Z.quot_le_mono; [lia |].
    apply Z.quot_le_mono; [lia | nia].
  - (* BUY, asset to stable: over the ceiling *)
    rewrite bigDiv_nonzero in HD by lia. injection HD as <-.
    rewrite computePrice_BUY_gem by lia. cbv zeta.
    destruct (Z.leb_spec (((a * WAD) ÷ (WAD - tin s) + Art s) * rate s)
                (line s)); [exfalso; nia | reflexivity].
Qed.

Lemma computePrice_monotone_and_capped_witness :
  let s := mkPoolState (10 ^ 15) (10 ^ 15) (10 ^ 24) (5 * 10 ^ 51) (10 ^ 27) in
  (exists p1 p2,
     computePrice false (10 ^ 12) SELL s 1000000 = Some p1 /\
     computePrice false (10 ^ 12) SELL s 2000000 = Some p2 /\ p1 <= p2) /\
  computePrice false (10 ^ 12) SELL s (10 ^ 19) = Some BN0.
Proof.
  intros s.
  assert (valid_snapshot s) as Hvalid
    by (unfold valid_snapshot, s; cbn; repeat split; lia).
  destruct (computePrice_monotone_and_capped false SELL s 6 (10 ^ 12)
              Hvalid eq_refl) as [Hmono Hcap].
  split.
  - apply Hmono; [lia | reflexivity | reflexivity].
  - apply (Hcap (10 ^ 19) (10 ^ 24 + 10 ^ 12 * 10 ^ 19));
      [lia | reflexivity | cbn; lia].
Defined.

(** ** Pricing against execution parameters *)

Lemma ceil_within_one (x m : Z) :
  0 <= x -> 0 < m -> x / m <= (x + m - 1) / m <= x / m + 1.
Proof.
  intros Hx Hm.
  pose proof (Z.div_mod x m ltac:(lia)) as E1.
  pose proof (Z.mod_pos_bound x m Hm) as B1.
  pose proof (Z.div_mod (x + m - 1) m ltac:(lia)) as E2.
  pose proof (Z.mod_pos_bound (x + m - 1) m Hm) as B2.
  split; nia.
Qed.

(** Stable to asset, sell side: with the buy fee in the quote record,
    [getPsmParams] rebuilds the quoted asset amount itself. *)
Lemma getPsmParams_sell_dai_exact (dai srcToken psm join : string)
    (s : PoolState) (d f a destAmount : Z) :
  String.eqb (toLowerCase srcToken) dai = true ->
  0 <= tout s ->
  to18ConversionFactor d = Some f ->
  feasible true f SELL s a = true ->
  exists q,
    computePrice true f SELL s a = Some q /\
    getPsmParams dai srcToken a destAmount
      (mkMakerPsmData (tout s) psm join d) SELL = Some (mkPsmParams false q).
Proof.
  intros Hdai Htout Hf Hfeas.
  pose proof (to18ConversionFactor_pos _ _ Hf) as Hpos.
  pose proof WAD_pos.
  unfold feasible, gemAmt18, buyGemCheck in Hfeas.
  rewrite bigDiv_nonzero in Hfeas by lia.
  exists (((a * WAD) ÷ (WAD + tout s)) ÷ f). split.
  - rewrite computePrice_SELL_dai by lia. cbv zeta.
    rewrite Hfeas. apply bigDiv_nonzero. lia.
  - unfold getPsmParams. cbn [gemDecimals toll].
    rewrite Hf, Hdai. cbn.
    rewrite (bigDiv_nonzero _ (WAD + tout s)) by lia. cbn.
    rewrite bigDiv_nonzero by lia. reflexivity.
Qed.

(** Asset to stable, sell side: the asset amount is the source amount,
    so pricing it again gives the same quote. *)
Lemma getPsmParams_sell_gem_exact (dai srcToken : string)
    (data : MakerPsmData) (f a destAmount : Z) :
  String.eqb (toLowerCase srcToken) dai = false ->
  to18ConversionFactor (gemDecimals data) = Some f ->
  getPsmParams dai srcToken a destAmount data SELL =
    Some (mkPsmParams true a).
Proof.
  intros Hdai Hf. unfold getPsmParams. rewrite Hf, Hdai. reflexivity.
Qed.

(** Asset to stable, buy side: with the sell fee in the quote record,
    the rounded-up amount of [getPsmParams] is the truncated quote of
    [computePrices] or one native unit above it. *)
Lemma getPsmParams_buy_gem_within_one (dai srcToken psm join : string)
    (s : PoolState) (d f a srcAmount : Z) :
  String.eqb (toLowerCase srcToken) dai = false ->
  tin s < WAD -> 0 <= a ->
  to18ConversionFactor d = Some f ->
  feasible false f BUY s a = true ->
  exists q p,
    computePrice false f BUY s a = Some q /\
    getPsmParams dai srcToken srcAmount a
      (mkMakerPsmData (tin s) psm join d) BUY = Some (mkPsmParams true p) /\
    q <= p <= q + 1.
Proof.
  intros Hdai Htin Ha Hf Hfeas.
  pose proof (to18ConversionFactor_pos _ _ Hf) as Hpos.
  pose proof WAD_pos as HW.
  unfold feasible, gemAmt18, sellGemCheck in Hfeas.
  rewrite bigDiv_nonzero in Hfeas by lia.
  exists (((a * WAD) ÷ (WAD - tin s)) ÷ f).
  exists ((a * WAD + (WAD - tin s) * f - BN1) ÷ ((WAD - tin s) * f)).
  split; [| split].
  - rewrite computePrice_BUY_gem by lia. cbv zeta.
    rewrite Hfeas. apply bigDiv_nonzero. lia.
  - unfold getPsmParams, ceilDiv. cbn [gemDecimals toll].
    rewrite Hf, Hdai. cbn.
    rewrite bigDiv_nonzero by nia. reflexivity.
  - unfold BN1.
    assert (0 < (WAD - tin s) * f) as Hm by nia.
    assert (0 <= a * WAD) as Hx by nia.
    rewrite (Z.quot_div_nonneg (a * WAD) (WAD - tin s)) by lia.
    rewrite (Z.quot_div_nonneg _ f)
      by (try lia; apply Z.div_pos; lia).
    rewrite (Z.quot_div_nonneg _ ((WAD - tin s) * f)) by lia.
    rewrite Z.div_div by lia.
    apply ceil_within_one; lia.
Qed.

(** Claim C5 (the code departs from it).  The quote record that
    [getPricesVolume] builds for a BUY of stable against the asset
    carries [tout], although [computePrices] prices that path with
    [tin]; [getPsmParams] divides by [WAD - toll], so the asset amount
    it rebuilds is off the quote by far more than one native unit when
    the two fees differ.  Here [tin = 0], [tout] is 0.1%, the asset has
    6 decimals and 1000 units of stable are wanted: the quote is
    1000000000, the rebuilt amount 1001001002. *)
Theorem getPsmParams_buy_gem_wrong_toll :
  let s := mkPoolState 0 (10 ^ 15) (10 ^ 24) (5 * 10 ^ 51) (10 ^ 27) in
  let usdc := mkToken "0xusdc" 6 in
  let dai := mkToken "0xdai" 18 in
  let cfg := mkPoolConfig usdc "0xpsm" "0xjoin" "PSM-USDC-A" in
  exists q,
    getPricesVolume "0xdai" usdc dai [1000 * 10 ^ 18] BUY cfg (10 ^ 12) s
      = Some q /\
    prices q = [1000000000] /\
    toll (poolData q) = tout s /\
    getPsmParams "0xdai" "0xusdc" 1000000000 (1000 * 10 ^ 18) (poolData q) BUY
      = Some (mkPsmParams true 1001001002) /\
    getPsmParams "0xdai" "0xusdc" 1000000000 (1000 * 10 ^ 18)
      (mkMakerPsmData (tin s) "0xpsm" "0xjoin" 6) BUY
      = Some (mkPsmParams true 1000000000).
Proof.
  eexists. split; [vm_compute; reflexivity |].
  vm_compute. repeat split; reflexivity.
Qed.

(** Selling to the pool the amount [getPsmParams] rebuilt yields the
    stable amount that was wanted, and at most one native unit of the
    asset above it. *)
Lemma sell_of_rebuilt_amount (s : PoolState) (f a : Z) :
  0 <= tin s < WAD -> 0 <= a -> 1 <= f ->
  let p := (a * WAD + (WAD - tin s) * f - BN1) ÷ ((WAD - tin s) * f) in
  let g := f * p in
  a <= g - (g * tin s) ÷ WAD <= a + f.
Proof.
  intros Htin Ha Hf p g. pose proof WAD_pos as HW.
  assert (0 < (WAD - tin s) * f) as Hm by nia.
  assert (0 <= a * WAD) as Hx by nia.
  unfold BN1 in p.
  assert (p = (a * WAD + (WAD - tin s) * f - 1) / ((WAD - tin s) * f)) as Hp
    by (subst p; apply Z.quot_div_nonneg; lia).
  pose proof (Z.div_mod (a * WAD + (WAD - tin s) * f - 1)
                ((WAD - tin s) * f) ltac:(lia)) as E1.
  pose proof (Z.mod_pos_bound (a * WAD + (WAD - tin s) * f - 1)
                ((WAD - tin s) * f) Hm) as B1.
  rewrite <- Hp in E1.
  assert (0 <= p) as Hp0 by (rewrite Hp; apply Z.div_pos; lia).
  assert (0 <= g) as Hg0 by (subst g; nia).
  rewrite (Z.quot_div_nonneg (g * tin s) WAD) by nia.
  pose proof (Z.div_mod (g * tin s) WAD ltac:(lia)) as E2.
  pose proof (Z.mod_pos_bound (g * tin s) WAD HW) as B2.
  assert (a * WAD <= g * (WAD - tin s) <= a * WAD + (WAD - tin s) * f - 1)
    as Hg by (subst g; nia).
  split; nia.
Qed.

(** ** Liquidity figure *)

Lemma minLiq_eq (s : PoolState) :
  rate s <> 0 ->
  minLiq s =
    Some (twice (parseInt
      (Z.min (Art s) ((line s - Art s * rate s) ÷ rate s) ÷ 10 ^ 18))).
Proof.
  intros Hrate. unfold minLiq.
  rewrite (bigDiv_nonzero _ (rate s)) by exact Hrate. cbn.
  unfold BN1E18. rewrite bigDiv_nonzero by discriminate. cbn.
  do 3 f_equal. f_equal.
  destruct (Z.ltb_spec ((line s - Art s * rate s) ÷ rate s) (Art s)); lia.
Qed.

(** Claim C6, as stated, fails: the code rounds the quotient by [1e18]
    down first and doubles it afterwards, so the figure is always
    even.  With a debt of 1.5 units and room for 8.5 more it reports 2,
    where twice the smaller limit over [1e18], rounded down, is 3.
    With a zero [rate] no figure is reported at all, the division
    throws; and past [2 ^ 53] units the figure is a rounded Number. *)
Lemma minLiq_not_twice_min_rounded :
  let s := mkPoolState 0 0 (15 * 10 ^ 17) (10 ^ 46) (10 ^ 27) in
  minLiq s = Some (Exact 2) /\
  liquidityEstimate_spec s = 3 /\
  minLiq (mkPoolState 0 0 0 0 0) = None /\
  minLiq (mkPoolState 0 0 ((2 ^ 53 + 1) * 10 ^ 18) (10 ^ 80) (10 ^ 27))
    = Some Rounded.
Proof. vm_compute. repeat split; reflexivity. Qed.

(** Claim C6, amended.  For every latest snapshot with a non-zero
    [debtScaleRate], and as long as the figure stays within the
    integers a Number holds exactly, the liquidity figure is
    [2 * (min(buyLimitAsset18, sellLimitAsset18) / 1e18)]: the
    quotient by [1e18] is cut to an integer unit first and doubled
    afterwards, with [buyLimitAsset18 = assetDebt] and
    [sellLimitAsset18 = (debtCeiling - assetDebt*debtScaleRate) /
    debtScaleRate]; the divisions truncate, which is rounding down for
    an unsigned snapshot whose debt is within its ceiling. *)
Theorem minLiq_twice_rounded_min (s : PoolState) :
  rate s <> 0 ->
  Z.abs (Z.min (Art s) ((line s - Art s * rate s) ÷ rate s) ÷ 10 ^ 18)
    <= 2 ^ 53 ->
  minLiq s =
    Some (Exact
      (2 * (Z.min (Art s) ((line s - Art s * rate s) ÷ rate s) ÷ 10 ^ 18)))
  /\ (0 <= Art s /\ 0 < rate s /\ Art s * rate s <= line s ->
      Z.min (Art s) ((line s - Art s * rate s) ÷ rate s) ÷ 10 ^ 18 =
      Z.min (Art s) ((line s - Art s * rate s) / rate s) / 10 ^ 18).
Proof.
  intros Hrate Hrange. split.
  - rewrite minLiq_eq by exact Hrate. unfold parseInt.
    destruct (Z.leb_spec
      (Z.abs (Z.min (Art s) ((line s - Art s * rate s) ÷ rate s) ÷ 10 ^ 18))
      (2 ^ 53)); [reflexivity | lia].
  - intros (HArt & Hpos & Hinv).
    rewrite (Z.quot_div_nonneg (line s - Art s * rate s)) by lia.
    assert (0 <= (line s - Art s * rate s) / rate s)
      by (apply Z.div_pos; lia).
    apply Z.quot_div_nonneg; lia.
Qed.

Lemma minLiq_twice_rounded_min_witness :
  minLiq (mkPoolState 0 0 (15 * 10 ^ 17) (10 ^ 46) (10 ^ 27)) = Some (Exact 2).
Proof.
  apply (proj1 (minLiq_twice_rounded_min
                  (mkPoolState 0 0 (15 * 10 ^ 17) (10 ^ 46) (10 ^ 27))
                  ltac:(discriminate) ltac:(vm_compute; discriminate))).
Defined.

(** For the stablecoin itself every configured pool is listed, each
    with the figure [minLiq] gives for its latest state. *)
Lemma getTopPoolsForToken_dai (dai : Token) (poolConfigs : list PoolConfig)
    (latest : PoolConfig -> PoolState) (tokenAddr : string) (limit : nat) :
  String.eqb (toLowerCase tokenAddr) (tokenAddress dai) = true ->
  Forall (fun p => rate (latest p) <> 0) poolConfigs ->
  getTopPoolsForToken dai poolConfigs latest tokenAddr limit =
    Some (map (fun p =>
                 let s := latest p in
                 mkPoolLiquidity (psmAddress p)
                   (twice (parseInt
                      (Z.min (Art s) ((line s - Art s * rate s) ÷ rate s)
                         ÷ 10 ^ 18)))
                   [gem p]) poolConfigs).
Proof.
  intros Hdai Hrates. unfold getTopPoolsForToken. rewrite Hdai.
  induction Hrates as [| p l Hp _ IH]; [reflexivity |].
  cbn [mapM map]. rewrite IH, (minLiq_eq _ Hp). reflexivity.
Qed.

(** ** State lookup *)

Lemma resume_Called_hit (chain : Z -> PoolState) (pool : PoolObject)
    (b : Z) (st : PoolState) :
  getState (store pool) b = Some st ->
  resume chain pool (Called b) = (pool, Returned st).
Proof. intros H. unfold resume. rewrite H. reflexivity. Qed.

Lemma resume_Called_miss (chain : Z -> PoolState) (pool : PoolObject) (b : Z) :
  getState (store pool) b = None ->
  resume chain pool (Called b) =
    (mkPoolObject (store pool) (S (chainReads pool)), AwaitingRead b).
Proof. intros H. unfold resume. rewrite H. reflexivity. Qed.

Lemma getState_setState (m : gmap Z PoolState) (st : PoolState) (b : Z) :
  getState (setState m st b) b = Some st.
Proof. unfold getState, setState. apply lookup_insert_eq. Qed.

(** Claim C7, as stated, fails: nothing joins two calls that are in
    flight together.  From an empty store, two calls for block 100 that
    both start before either read resolves issue two on-chain reads. *)
Lemma getPoolState_concurrent_two_reads :
  let chain := fun _ : Z => mkPoolState 0 0 (10 ^ 24) (5 * 10 ^ 51) (10 ^ 27) in
  let run := runSchedule chain [0; 1; 0; 1]%nat (mkPoolObject ∅ 0)
               [Called 100; Called 100] in
  ~ (chainReads run.1 <= 1)%nat /\
  run.2 = [Returned (chain 100); Returned (chain 100)].
Proof.
  vm_compute. split; [lia | reflexivity].
Qed.

Lemma runSchedule_cons (chain : Z -> PoolState) (i : nat) (rest : list nat)
    (pool : PoolObject) (invs : list Invocation) (inv : Invocation) :
  invs !! i = Some inv ->
  runSchedule chain (i :: rest) pool invs =
    runSchedule chain rest (resume chain pool inv).1
      (<[i := (resume chain pool inv).2]> invs).
Proof.
  intros H. cbn [runSchedule]. rewrite H.
  destruct (resume chain pool inv). reflexivity.
Qed.

(** Claim C7, amended.  Two calls of [getPoolState] for the same pool
    and block, the second made once the first has returned and with no
    event in between, return the same snapshot and issue at most one
    on-chain read between them.  Calls in flight together are not
    joined: when the store has no entry for the block, two calls that
    both start before a read resolves issue one read each, and both
    return what the chain holds at that block. *)
Theorem getPoolState_twice (chain : Z -> PoolState) (pool : PoolObject) (b : Z) :
  (exists state pool',
     runSchedule chain [0; 0; 1; 1]%nat pool [Called b; Called b] =
       (pool', [Returned state; Returned state]) /\
     getState (store pool') b = Some state /\
     (chainReads pool' <= S (chainReads pool))%nat)
  /\ (getState (store pool) b = None ->
      exists pool',
        runSchedule chain [0; 1; 0; 1]%nat pool [Called b; Called b] =
          (pool', [Returned (chain b); Returned (chain b)]) /\
        chainReads pool' = S (S (chainReads pool))).
Proof.
  split.
  - destruct (getState (store pool) b) as [st |] eqn:Hget.
    + exists st, pool.
      rewrite (runSchedule_cons _ _ _ _ _ (Called b)) by reflexivity.
      rewrite (resume_Called_hit _ _ _ _ Hget). cbn [fst snd].
      rewrite (runSchedule_cons _ _ _ _ _ (Returned st)) by reflexivity.
      cbn [resume fst snd].
      rewrite (runSchedule_cons _ _ _ _ _ (Called b)) by reflexivity.
      rewrite (resume_Called_hit _ _ _ _ Hget). cbn [fst snd].
      rewrite (runSchedule_cons _ _ _ _ _ (Returned st)) by reflexivity.
      cbn [resume fst snd runSchedule].
      split; [reflexivity |]. split; [exact Hget | lia].
    + exists (chain b),
        (mkPoolObject (setState (store pool) (chain b) b)
           (S (chainReads pool))).
      rewrite (runSchedule_cons _ _ _ _ _ (Called b)) by reflexivity.
      rewrite (resume_Called_miss _ _ _ Hget). cbn [fst snd].
      rewrite (runSchedule_cons _ _ _ _ _ (AwaitingRead b)) by reflexivity.
      cbn [resume fst snd store chainReads].
      rewrite (runSchedule_cons _ _ _ _ _ (Called b)) by reflexivity.
      rewrite (resume_Called_hit _ _ b (chain b))
        by apply getState_setState.
      cbn [fst snd].
      rewrite (runSchedule_cons _ _ _ _ _ (Returned (chain b)))
        by reflexivity.
      cbn [resume fst snd runSchedule store chainReads].
      split; [reflexivity |].
      split; [apply getState_setState | lia].
  - intros Hget.
    exists (mkPoolObject
              (setState (setState (store pool) (chain b) b) (chain b) b)
              (S (S (chainReads pool)))).
    rewrite (runSchedule_cons _ _ _ _ _ (Called b)) by reflexivity.
    rewrite (resume_Called_miss _ _ _ Hget). cbn [fst snd].
    rewrite (runSchedule_cons _ _ _ _ _ (Called b)) by reflexivity.
    rewrite resume_Called_miss by exact Hget. cbn [fst snd].
    rewrite (runSchedule_cons _ _ _ _ _ (AwaitingRead b)) by reflexivity.
    cbn [resume fst snd store chainReads].
    rewrite (runSchedule_cons _ _ _ _ _ (AwaitingRead b)) by reflexivity.
    cbn [resume fst snd store chainReads runSchedule].
    split; reflexivity.
Qed.

Lemma getPoolState_twice_witness :
  let chain := fun _ : Z => mkPoolState 0 0 (10 ^ 24) (5 * 10 ^ 51) (10 ^ 27) in
  exists pool',
    runSchedule chain [0; 1; 0; 1]%nat (mkPoolObject ∅ 0)
      [Called 100; Called 100] =
      (pool', [Returned (chain 100); Returned (chain 100)]) /\
    chainReads pool' = 2%nat.
Proof.
  intros chain.
  apply (proj2 (getPoolState_twice chain (mkPoolObject ∅ 0) 100)).
  reflexivity.
Defined.

(** * Further properties of the code *)

(** Closed comparisons between integer constants. *)
Ltac by_evaluation :=
  vm_compute; repeat split; first [reflexivity | discriminate].

(** ** Arithmetic helpers *)

(** [ceilDiv] is the ceiling of the quotient for a non-negative
    dividend and a positive divisor: the least [q] with [a <= q * b]. *)
Theorem ceilDiv_is_ceiling (a b : Z) :
  0 <= a -> 0 < b ->
  exists q, ceilDiv a b = Some q /\ (q - 1) * b < a <= q * b.
Proof.
  intros Ha Hb. exists ((a + b - 1) / b). split.
  - unfold ceilDiv, BN1. rewrite bigDiv_nonzero by lia.
    f_equal. apply Z.quot_div_nonneg; lia.
  - pose proof (Z.div_mod (a + b - 1) b ltac:(lia)) as E.
    pose proof (Z.mod_pos_bound (a + b - 1) b Hb) as B.
    split; nia.
Qed.

Lemma ceilDiv_is_ceiling_witness :
  exists q, ceilDiv 7 2 = Some q /\ (q - 1) * 2 < 7 <= q * 2.
Proof. apply (ceilDiv_is_ceiling 7 2); lia. Defined.

(** Scaling a native amount up to 18 decimals and back down gives the
    amount again; scaling an 18-decimal amount down and back up loses
    less than one native unit, never gains. *)
Theorem to18_scaling_round_trip (d f a : Z) :
  to18ConversionFactor d = Some f ->
  bigDiv (f * a) f = Some a /\
  (0 <= a -> exists n, bigDiv a f = Some n /\ a - f < f * n <= a).
Proof.
  intros Hf. pose proof (to18ConversionFactor_pos _ _ Hf) as Hpos. split.
  - rewrite bigDiv_nonzero by lia. f_equal.
    rewrite Z.mul_comm. apply Z.quot_mul. lia.
  - intros Ha. exists (a / f). split.
    + rewrite bigDiv_nonzero by lia. f_equal.
      apply Z.quot_div_nonneg; lia.
    + pose proof (Z.div_mod a f ltac:(lia)) as E.
      pose proof (Z.mod_pos_bound a f ltac:(lia)) as B.
      split; nia.
Qed.

Lemma to18_scaling_round_trip_witness :
  bigDiv (10 ^ 12 * 1234567) (10 ^ 12) = Some 1234567.
Proof.
  apply (proj1 (to18_scaling_round_trip 6 (10 ^ 12) 1234567 eq_refl)).
Defined.

(** ** Quotes against what is put in *)

Lemma sell_gem_bounds (s : PoolState) (f a : Z) :
  0 <= tin s <= WAD -> 1 <= f -> 0 <= a ->
  exists q, computePrice false f SELL s a = Some q /\ 0 <= q <= f * a.
Proof.
  intros Htin Hf Ha. pose proof WAD_pos as HW.
  rewrite computePrice_SELL_gem. cbv zeta.
  destruct (_ <=? _); [| exists 0; split; [reflexivity | nia]].
  eexists. split; [reflexivity |].
  assert (0 <= f * a) as Hg by nia.
  rewrite Z.quot_div_nonneg by nia.
  assert (0 <= f * a * tin s / WAD) by (apply Z.div_pos; nia).
  assert (f * a * tin s / WAD <= f * a)
    by (apply Z.div_le_upper_bound; nia).
  lia.
Qed.

Lemma sell_dai_bounds (s : PoolState) (f a : Z) :
  0 <= tout s -> 1 <= f -> 0 <= a ->
  exists q, computePrice true f SELL s a = Some q /\ 0 <= q /\ f * q <= a.
Proof.
  intros Htout Hf Ha. pose proof WAD_pos as HW.
  rewrite computePrice_SELL_dai by lia. cbv zeta.
  destruct (_ <=? _); [| exists 0; split; [reflexivity | nia]].
  rewrite bigDiv_nonzero by lia.
  eexists. split; [reflexivity |].
  rewrite (Z.quot_div_nonneg (a * WAD)) by nia.
  assert (0 <= a * WAD / (WAD + tout s)) as Hg0 by (apply Z.div_pos; nia).
  assert (a * WAD / (WAD + tout s) <= a)
    by (apply Z.div_le_upper_bound; nia).
  rewrite Z.quot_div_nonneg by lia.
  assert (0 <= a * WAD / (WAD + tout s) / f) by (apply Z.div_pos; lia).
  pose proof (Z.mul_div_le (a * WAD / (WAD + tout s)) f ltac:(lia)).
  lia.
Qed.

(** A sell quote never pays out more than is put in, at 18 decimals:
    for fees between 0% and 100%, selling the asset yields between 0
    and the scaled-up input, and selling stable yields an asset amount
    whose scaled-up value is at most the input. *)
Theorem sell_quote_at_most_input (s : PoolState) (d f a : Z) :
  0 <= tin s <= WAD -> 0 <= tout s ->
  to18ConversionFactor d = Some f -> 0 <= a ->
  (exists q, computePrice false f SELL s a = Some q /\ 0 <= q <= f * a) /\
  (exists q, computePrice true f SELL s a = Some q /\ 0 <= q /\ f * q <= a).
Proof.
  intros Htin Htout Hf Ha.
  pose proof (to18ConversionFactor_pos _ _ Hf).
  split; [apply sell_gem_bounds | apply sell_dai_bounds]; assumption.
Qed.

Lemma sell_quote_at_most_input_witness :
  let s := mkPoolState (10 ^ 15) (10 ^ 15) (10 ^ 24) (5 * 10 ^ 51) (10 ^ 27) in
  exists q, computePrice false (10 ^ 12) SELL s 2000000 = Some q /\
            0 <= q <= 10 ^ 12 * 2000000.
Proof.
  intros s.
  apply (proj1 (sell_quote_at_most_input s 6 (10 ^ 12) 2000000
                  ltac:(by_evaluation) ltac:(by_evaluation) eq_refl ltac:(lia))).
Defined.

(** Selling the asset and selling the stable received back, or the
    other way round, never ends with more than one started with. *)
Theorem sell_there_and_back_no_gain (s : PoolState) (d f n : Z) :
  0 <= tin s <= WAD -> 0 <= tout s ->
  to18ConversionFactor d = Some f -> 0 <= n ->
  (exists stable gem',
     computePrice false f SELL s n = Some stable /\
     computePrice true f SELL s stable = Some gem' /\ gem' <= n) /\
  (exists gem stable',
     computePrice true f SELL s n = Some gem /\
     computePrice false f SELL s gem = Some stable' /\ stable' <= n).
Proof.
  intros Htin Htout Hf Hn.
  pose proof (to18ConversionFactor_pos _ _ Hf) as Hpos.
  split.
  - destruct (sell_gem_bounds s f n Htin Hpos Hn) as (st & E1 & B1).
    destruct (sell_dai_bounds s f st Htout Hpos ltac:(lia)) as (g & E2 & B2).
    exists st, g. repeat split; try assumption. nia.
  - destruct (sell_dai_bounds s f n Htout Hpos Hn) as (g & E1 & B1).
    destruct (sell_gem_bounds s f g Htin Hpos ltac:(lia)) as (st & E2 & B2).
    exists g, st. repeat split; try assumption. nia.
Qed.

Lemma sell_there_and_back_no_gain_witness :
  let s := mkPoolState (10 ^ 15) (10 ^ 15) (10 ^ 24) (5 * 10 ^ 51) (10 ^ 27) in
  exists stable gem',
    computePrice false (10 ^ 12) SELL s 2000000 = Some stable /\
    computePrice true (10 ^ 12) SELL s stable = Some gem' /\ gem' <= 2000000.
Proof.
  intros s.
  apply (proj1 (sell_there_and_back_no_gain s 6 (10 ^ 12) 2000000
                  ltac:(by_evaluation) ltac:(by_evaluation) eq_refl ltac:(lia))).
Defined.

(** On the Stable->Asset buy path a feasible quote asks for at least
    the scaled-up asset amount: the buy fee is never negative. *)
Theorem buy_dai_quote_covers_output (s : PoolState) (d f a : Z) :
  0 <= tout s -> to18ConversionFactor d = Some f -> 0 <= a ->
  feasible true f BUY s a = true ->
  exists q, computePrice true f BUY s a = Some q /\ f * a <= q.
Proof.
  intros Htout Hf Ha Hfeas.
  pose proof (to18ConversionFactor_pos _ _ Hf) as Hpos.
  pose proof WAD_pos as HW.
  unfold feasible, gemAmt18, buyGemCheck in Hfeas.
  rewrite computePrice_BUY_dai. cbv zeta. rewrite Hfeas.
  eexists. split; [reflexivity |].
  assert (0 <= (f * a * tout s) ÷ WAD) by (apply Z.quot_pos; nia).
  lia.
Qed.

Lemma buy_dai_quote_covers_output_witness :
  let s := mkPoolState 0 (10 ^ 15) (10 ^ 24) (5 * 10 ^ 51) (10 ^ 27) in
  exists q, computePrice true (10 ^ 12) BUY s 1000000 = Some q /\
            10 ^ 12 * 1000000 <= q.
Proof.
  intros s.
  apply (buy_dai_quote_covers_output s 6 (10 ^ 12) 1000000
           ltac:(by_evaluation) eq_refl ltac:(lia) eq_refl).
Defined.

(** A zero amount is quoted zero on all four paths, whatever the debt
    and its ceiling. *)
Theorem zero_amount_quotes_zero (isSrcDai : bool) (side : SwapSide)
    (s : PoolState) (f : Z) :
  0 <= tout s -> tin s < WAD -> f <> 0 ->
  computePrice isSrcDai f side s 0 = Some 0.
Proof.
  intros Htout Htin Hf. pose proof WAD_pos as HW.
  destruct side, isSrcDai.
  - rewrite computePrice_SELL_dai by lia. cbv zeta.
    rewrite Z.mul_0_l, Z.quot_0_l by lia.
    destruct (_ <=? _); [| reflexivity].
    rewrite bigDiv_nonzero by lia. rewrite Z.quot_0_l by lia. reflexivity.
  - rewrite computePrice_SELL_gem. cbv zeta.
    rewrite Z.mul_0_r, Z.mul_0_l, Z.quot_0_l by (pose WAD_pos; lia).
    destruct (_ <=? _); reflexivity.
  - rewrite computePrice_BUY_dai. cbv zeta.
    rewrite Z.mul_0_r, Z.mul_0_l, Z.quot_0_l by lia.
    destruct (_ <=? _); reflexivity.
  - rewrite computePrice_BUY_gem by lia. cbv zeta.
    rewrite Z.mul_0_l, Z.quot_0_l by lia.
    destruct (_ <=? _); [| reflexivity].
    rewrite bigDiv_nonzero by lia. rewrite Z.quot_0_l by lia. reflexivity.
Qed.

Lemma zero_amount_quotes_zero_witness :
  computePrice false (10 ^ 12) BUY
    (mkPoolState (10 ^ 15) 0 (10 ^ 24) 0 (10 ^ 27)) 0 = Some 0.
Proof.
  apply (zero_amount_quotes_zero false BUY
           (mkPoolState (10 ^ 15) 0 (10 ^ 24) 0 (10 ^ 27)) (10 ^ 12));
    [cbn; lia | reflexivity | discriminate].
Defined.

(** ** The feasible region and the state after a trade *)

(** When an amount can be traded, so can every smaller one: on each of
    the four paths the feasible amounts are closed downwards. *)
Theorem feasible_downward_closed (isSrcDai : bool) (side : SwapSide)
    (s : PoolState) (d f a1 a2 : Z) :
  0 <= tout s -> tin s < WAD -> 0 <= rate s ->
  to18ConversionFactor d = Some f ->
  a1 <= a2 ->
  feasible isSrcDai f side s a2 = true ->
  feasible isSrcDai f side s a1 = true.
Proof.
  intros Htout Htin Hrate Hf Ha.
  pose proof (to18ConversionFactor_pos _ _ Hf) as Hpos.
  pose proof WAD_pos as HW.
  unfold feasible, gemAmt18, buyGemCheck, sellGemCheck.
  destruct side, isSrcDai; cbv beta iota.
  - rewrite !bigDiv_nonzero by lia. rewrite !Z.leb_le. intros H2.
    assert ((a1 * WAD) ÷ (WAD + tout s) <= (a2 * WAD) ÷ (WAD + tout s))
      by (apply Z.quot_le_mono; [lia | nia]).
    lia.
  - rewrite !Z.leb_le. intros H2.
    assert (f * a1 <= f * a2) by nia.
    assert ((f * a1 + Art s) * rate s <= (f * a2 + Art s) * rate s)
      by (apply Z.mul_le_mono_nonneg_r; lia).
    lia.
  - rewrite !Z.leb_le. intros H2. nia.
  - rewrite !bigDiv_nonzero by lia. rewrite !Z.leb_le. intros H2.
    assert ((a1 * WAD) ÷ (WAD - tin s) <= (a2 * WAD) ÷ (WAD - tin s))
      by (apply Z.quot_le_mono; [lia | nia]).
    assert (((a1 * WAD) ÷ (WAD - tin s) + Art s) * rate s <=
            ((a2 * WAD) ÷ (WAD - tin s) + Art s) * rate s)
      by (apply Z.mul_le_mono_nonneg_r; lia).
    lia.
Qed.

Lemma feasible_downward_closed_witness :
  feasible false (10 ^ 12) SELL
    (mkPoolState (10 ^ 15) 0 (10 ^ 24) (5 * 10 ^ 51) (10 ^ 27)) 1000000 = true.
Proof.
  apply (feasible_downward_closed false SELL
           (mkPoolState (10 ^ 15) 0 (10 ^ 24) (5 * 10 ^ 51) (10 ^ 27))
           6 (10 ^ 12) 1000000 2000000);
    [by_evaluation | by_evaluation | by_evaluation | reflexivity
    | lia | reflexivity].
Defined.

(** A feasible quote, once the trade it prices is applied as an event,
    leaves a valid snapshot: the debt stays non-negative and within its
    ceiling.  The event carries the native asset amount of the trade
    and is a [BuyGem] when stable is the source, a [SellGem] otherwise. *)
Theorem feasible_quote_keeps_snapshot_valid (isSrcDai : bool)
    (side : SwapSide) (s : PoolState) (d f a q : Z) (n w : string) (v : Z) :
  valid_snapshot s ->
  to18ConversionFactor d = Some f ->
  0 <= a ->
  feasible isSrcDai f side s a = true ->
  computePrice isSrcDai f side s a = Some q ->
  valid_snapshot
    ((if isSrcDai then handleBuyGem f else handleSellGem f)
       (mkEvent n (mkEventArgs w v (tradedGem isSrcDai side a q))) s).
Proof.
  intros (Htin & Htout & HArt & Hline & Hrate & Hinv) Hf Ha Hfeas Hq.
  pose proof (to18ConversionFactor_pos _ _ Hf) as Hpos.
  pose proof WAD_pos as HW.
  unfold feasible, gemAmt18, buyGemCheck, sellGemCheck in Hfeas.
  unfold valid_snapshot, handleBuyGem, handleSellGem, tradedGem.
  destruct side, isSrcDai; cbv beta iota in Hfeas |- *;
    cbn [tin tout Art line rate value args].
  - (* SELL, stable to asset: the quote is bought from the pool *)
    rewrite bigDiv_nonzero in Hfeas by lia. apply Z.leb_le in Hfeas.
    rewrite computePrice_SELL_dai in Hq by lia. cbv zeta in Hq.
    apply Z.leb_le in Hfeas as Hfeas'. rewrite Hfeas' in Hq.
    rewrite bigDiv_nonzero in Hq by lia. injection Hq as <-.
    assert (0 <= (a * WAD) ÷ (WAD + tout s)) as Hg
      by (apply Z.quot_pos; nia).
    rewrite (Z.quot_div_nonneg _ f) by lia.
    pose proof (Z.mul_div_le ((a * WAD) ÷ (WAD + tout s)) f ltac:(lia)).
    assert (0 <= (a * WAD) ÷ (WAD + tout s) / f) by (apply Z.div_pos; lia).
    repeat split; try lia; nia.
  - (* SELL, asset to stable: the input is sold to the pool *)
    apply Z.leb_le in Hfeas. repeat split; try lia; nia.
  - (* BUY, stable to asset: the wanted amount is bought *)
    apply Z.leb_le in Hfeas. repeat split; try lia; nia.
  - (* BUY, asset to stable: the quote is sold to the pool *)
    rewrite bigDiv_nonzero in Hfeas by lia. apply Z.leb_le in Hfeas.
    rewrite computePrice_BUY_gem in Hq by lia. cbv zeta in Hq.
    apply Z.leb_le in Hfeas as Hfeas'. rewrite Hfeas' in Hq.
    rewrite bigDiv_nonzero in Hq by lia. injection Hq as <-.
    assert (0 <= (a * WAD) ÷ (WAD - tin s)) as Hg
      by (apply Z.quot_pos; nia).
    rewrite (Z.quot_div_nonneg _ f) by lia.
    pose proof (Z.mul_div_le ((a * WAD) ÷ (WAD - tin s)) f ltac:(lia)).
    assert (0 <= (a * WAD) ÷ (WAD - tin s) / f) by (apply Z.div_pos; lia).
    repeat split; try lia; nia.
Qed.

Lemma feasible_quote_keeps_snapshot_valid_witness :
  valid_snapshot
    (handleSellGem (10 ^ 12)
       (mkEvent "SellGem" (mkEventArgs "" 0 2000000))
       (mkPoolState (10 ^ 15) 0 (10 ^ 24) (5 * 10 ^ 51) (10 ^ 27))).
Proof.
  apply (feasible_quote_keeps_snapshot_valid false SELL
           (mkPoolState (10 ^ 15) 0 (10 ^ 24) (5 * 10 ^ 51) (10 ^ 27))
           6 (10 ^ 12) 2000000 (1998 * 10 ^ 15) "SellGem" "" 0);
    [by_evaluation | reflexivity | lia | reflexivity | reflexivity].
Defined.

(** ** Event application *)

Lemma handleFile_keeps_debt (event : Event) (pool : PoolState) :
  Art (handleFile event pool) = Art pool /\
  line (handleFile event pool) = line pool /\
  rate (handleFile event pool) = rate pool.
Proof.
  unfold handleFile.
  destruct (String.eqb _ bytes32Tin); [repeat split |].
  destruct (String.eqb _ bytes32Tout); repeat split.
Qed.

(** Whatever the log, [processLog] leaves the debt ceiling and the
    rate of the state object as they were, and a state it returns is
    the content of that object after the call. *)
Theorem processLog_keeps_line_and_rate (logDecoder : Log -> option Event)
    (to18 : Z) (state : PoolState) (log : Log) :
  line (processLog logDecoder to18 state log).2 = line state /\
  rate (processLog logDecoder to18 state log).2 = rate state /\
  (forall returned,
     (processLog logDecoder to18 state log).1 = Some returned ->
     returned = (processLog logDecoder to18 state log).2).
Proof.
  unfold processLog.
  destruct (logDecoder log) as [event |]; [| repeat split; discriminate].
  rewrite handlers_lookup.
  destruct (String.eqb (name event) "BuyGem");
    [cbn; repeat split; congruence |].
  destruct (String.eqb (name event) "SellGem");
    [cbn; repeat split; congruence |].
  destruct (String.eqb (name event) "File");
    [| cbn; repeat split; congruence].
  cbn [fst snd].
  destruct (handleFile_keeps_debt event state) as (_ & Hl & Hr).
  repeat split; congruence.
Qed.

(** A [SellGem] event followed by a [BuyGem] event of the same value
    gives back the snapshot one started from. *)
Theorem processLog_sell_then_buy_restores (logDecoder : Log -> option Event)
    (to18 : Z) (state : PoolState) (log1 log2 : Log) (args1 args2 : EventArgs) :
  logDecoder log1 = Some (mkEvent "SellGem" args1) ->
  logDecoder log2 = Some (mkEvent "BuyGem" args2) ->
  value args1 = value args2 ->
  processLog logDecoder to18
    (processLog logDecoder to18 state log1).2 log2 = (Some state, state).
Proof.
  intros H1 H2 Hv.
  rewrite (processLog_handled _ _ _ _ _ (handleSellGem to18) H1)
    by reflexivity.
  cbn [snd].
  rewrite (processLog_handled _ _ _ _ _ (handleBuyGem to18) H2)
    by reflexivity.
  assert (handleBuyGem to18 (mkEvent "BuyGem" args2)
            (handleSellGem to18 (mkEvent "SellGem" args1) state) = state)
    as ->; [| reflexivity].
  unfold handleBuyGem, handleSellGem. cbn. rewrite Hv.
  destruct state as [t1 t2 A l r]. cbn. f_equal. lia.
Qed.

Lemma processLog_sell_then_buy_restores_witness :
  let dec := fun log : Log =>
    Some (mkEvent (address log) (mkEventArgs "" 0 2000000)) in
  let state := mkPoolState 0 0 (10 ^ 24) (5 * 10 ^ 51) (10 ^ 27) in
  processLog dec (10 ^ 12)
    (processLog dec (10 ^ 12) state (mkLog "SellGem" [] "")).2
    (mkLog "BuyGem" [] "") = (Some state, state).
Proof.
  intros dec state.
  apply (processLog_sell_then_buy_restores dec (10 ^ 12) state
           (mkLog "SellGem" [] "") (mkLog "BuyGem" [] "")
           (mkEventArgs "" 0 2000000) (mkEventArgs "" 0 2000000));
    reflexivity.
Defined.


(** Of two [File] events for the same parameter the later one wins:
    applying both is applying the second alone. *)
Theorem handleFile_last_wins (e1 e2 : Event) (pool : PoolState) :
  what (args e1) = what (args e2) ->
  handleFile e2 (handleFile e1 pool) = handleFile e2 pool.
Proof.
  intros Hw. unfold handleFile. rewrite Hw.
  destruct (String.eqb (what (args e2)) bytes32Tin); [reflexivity |].
  destruct (String.eqb (what (args e2)) bytes32Tout); reflexivity.
Qed.

Lemma handleFile_last_wins_witness :
  let pool := mkPoolState 0 0 (10 ^ 24) (5 * 10 ^ 51) (10 ^ 27) in
  handleFile (mkEvent "File" (mkEventArgs bytes32Tout 7 0))
    (handleFile (mkEvent "File" (mkEventArgs bytes32Tout 5 0)) pool) =
  handleFile (mkEvent "File" (mkEventArgs bytes32Tout 7 0)) pool.
Proof.
  intros pool.
  apply (handleFile_last_wins
           (mkEvent "File" (mkEventArgs bytes32Tout 5 0))
           (mkEvent "File" (mkEventArgs bytes32Tout 7 0)) pool).
  reflexivity.
Defined.

(** ** Pool identifiers and the registry *)

Lemma lowerAscii_idemp (c : ascii) : lowerAscii (lowerAscii c) = lowerAscii c.
Proof. destruct c as [[] [] [] [] [] [] [] []]; reflexivity. Qed.

Lemma toLowerCase_idemp (s : string) :
  toLowerCase (toLowerCase s) = toLowerCase s.
Proof.
  induction s as [| c s IH]; [reflexivity |].
  cbn. rewrite lowerAscii_idemp, IH. reflexivity.
Qed.

Lemma toLowerCase_app (s t : string) :
  toLowerCase (String.append s t) =
    String.append (toLowerCase s) (toLowerCase t).
Proof.
  induction s as [| c s IH]; [reflexivity |].
  change (toLowerCase (String c (String.append s t)) =
          String (lowerAscii c)
            (String.append (toLowerCase s) (toLowerCase t))).
  cbn [toLowerCase]. f_equal. exact IH.
Qed.

Lemma append_cancel_l (s t u : string) :
  String.append s t = String.append s u -> t = u.
Proof.
  induction s as [| c s IH]; [trivial |].
  change (String c (String.append s t) = String c (String.append s u)
          -> t = u).
  intros [= H]. exact (IH H).
Qed.

(** Under one parent name, two pools have the same identifier exactly
    when their PSM addresses are equal up to the case of their
    letters. *)
Theorem getIdentifer_eq_iff (parentName : string) (p1 p2 : PoolConfig) :
  getIdentifer parentName p1 = getIdentifer parentName p2 <->
  toLowerCase (psmAddress p1) = toLowerCase (psmAddress p2).
Proof.
  unfold getIdentifer. rewrite !toLowerCase_app. split.
  - intros H. apply append_cancel_l in H. apply append_cancel_l in H.
    exact H.
  - intros ->. reflexivity.
Qed.

Lemma eventPools_foldl_lookup (l : list PoolConfig)
    (m : gmap string PoolConfig) (k : string) (p : PoolConfig) :
  foldl (fun m p => <[toLowerCase (tokenAddress (gem p)) := p]> m) m l !! k
    = Some p ->
  (p ∈ l /\ toLowerCase (tokenAddress (gem p)) = k) \/ m !! k = Some p.
Proof.
  revert m. induction l as [| c l IH]; intros m H; [right; exact H |].
  cbn [foldl] in H. apply IH in H as [[Hin Hk] | H].
  - left. split; [right; exact Hin | exact Hk].
  - destruct (decide (toLowerCase (tokenAddress (gem c)) = k)) as [<- | Hne].
    + rewrite lookup_insert_eq in H. injection H as <-.
      left. split; [left | reflexivity].
    + rewrite lookup_insert_ne in H by exact Hne. right. exact H.
Qed.

Lemma eventPools_foldl_is_Some (l : list PoolConfig)
    (m : gmap string PoolConfig) (k : string) :
  is_Some (m !! k) \/
  (exists p, p ∈ l /\ toLowerCase (tokenAddress (gem p)) = k) ->
  is_Some
    (foldl (fun m p => <[toLowerCase (tokenAddress (gem p)) := p]> m) m l
       !! k).
Proof.
  revert m. induction l as [| c l IH]; intros m H.
  - destruct H as [H | (p & Hin & _)]; [exact H |].
    apply elem_of_nil in Hin. contradiction.
  - cbn [foldl]. apply IH.
    destruct (decide (toLowerCase (tokenAddress (gem c)) = k)) as [<- | Hne].
    + left. rewrite lookup_insert_eq. eauto.
    + destruct H as [H | (p & Hin & Hk)].
      * left. rewrite lookup_insert_ne by exact Hne. exact H.
      * apply elem_of_cons in Hin as [-> | Hin]; [contradiction |].
        right. eauto.
Qed.

(** The registry built by the constructor: a key resolves only to a
    configured pool whose lower-cased asset address is that key; every
    configured pool's key resolves; and of two pools with the same key
    the one configured last is the one found. *)
Theorem eventPools_lookup (poolConfigs : list PoolConfig) :
  (forall k p, eventPools poolConfigs !! k = Some p ->
     p ∈ poolConfigs /\ toLowerCase (tokenAddress (gem p)) = k) /\
  (forall p, p ∈ poolConfigs ->
     is_Some (eventPools poolConfigs
                !! toLowerCase (tokenAddress (gem p)))) /\
  (forall p, eventPools (poolConfigs ++ [p])
               !! toLowerCase (tokenAddress (gem p)) = Some p).
Proof.
  unfold eventPools. repeat split.
  - apply eventPools_foldl_lookup in H as [[Hin _] | H]; [exact Hin |].
    rewrite lookup_empty in H. discriminate.
  - apply eventPools_foldl_lookup in H as [[_ Hk] | H]; [exact Hk |].
    rewrite lookup_empty in H. discriminate.
  - intros p Hin. apply eventPools_foldl_is_Some. right. eauto.
  - intros p. rewrite foldl_app. cbn [foldl]. apply lookup_insert_eq.
Qed.

(** [getEventPool] finds a pool exactly when one token is the
    stablecoin and the registry has a pool under the other token's
    lower-cased address. *)
Theorem getEventPool_Some_iff (dai : Token) (pools : gmap string PoolConfig)
    (srcToken destToken : Token) (p : PoolConfig) :
  getEventPool dai pools srcToken destToken = Some p <->
  (toLowerCase (tokenAddress srcToken) = tokenAddress dai /\
   pools !! toLowerCase (tokenAddress destToken) = Some p) \/
  (toLowerCase (tokenAddress destToken) = tokenAddress dai /\
   pools !! toLowerCase (tokenAddress srcToken) = Some p).
Proof.
  unfold getEventPool.
  destruct (String.eqb_spec (toLowerCase (tokenAddress srcToken))
              (tokenAddress dai)) as [Hs | Hs];
  destruct (String.eqb_spec (toLowerCase (tokenAddress destToken))
              (tokenAddress dai)) as [Hd | Hd];
    repeat match goal with
           | |- context [pools !! ?k] => destruct (pools !! k) eqn:?
           end;
    (split;
     [ intros H; try discriminate H;
       first [left; split; congruence | right; split; congruence]
     | intros [[? ?] | [? ?]]; congruence ]).
Qed.

(** The pair of tokens is unordered: [getEventPool] and
    [getPoolIdentifiers] give the same answer for a pair and for the
    pair swapped. *)
Theorem getEventPool_swap (dexKey : string) (dai : Token)
    (pools : gmap string PoolConfig) (srcToken destToken : Token) :
  getEventPool dai pools srcToken destToken =
    getEventPool dai pools destToken srcToken /\
  getPoolIdentifiers dexKey dai pools srcToken destToken =
    getPoolIdentifiers dexKey dai pools destToken srcToken.
Proof.
  assert (getEventPool dai pools srcToken destToken =
          getEventPool dai pools destToken srcToken) as Hswap.
  { unfold getEventPool.
    destruct (String.eqb_spec (toLowerCase (tokenAddress srcToken))
                (tokenAddress dai)) as [Hs | Hs];
    destruct (String.eqb_spec (toLowerCase (tokenAddress destToken))
                (tokenAddress dai)) as [Hd | Hd];
      try rewrite Hs; try rewrite Hd;
      repeat match goal with
             | |- context [pools !! ?k] => destruct (pools !! k)
             end; reflexivity. }
  split; [exact Hswap |].
  unfold getPoolIdentifiers. rewrite Hswap. reflexivity.
Qed.

(** The stablecoin address is compared as configured, against
    lower-cased token addresses: when the configured address is not in
    lower case, no pair of tokens resolves to a pool. *)
Theorem getEventPool_dai_not_lower_case (dai : Token)
    (pools : gmap string PoolConfig) (srcToken destToken : Token) :
  toLowerCase (tokenAddress dai) <> tokenAddress dai ->
  getEventPool dai pools srcToken destToken = None.
Proof.
  intros Hdai. unfold getEventPool.
  destruct (String.eqb_spec (toLowerCase (tokenAddress srcToken))
              (tokenAddress dai)) as [Hs | _].
  { exfalso. apply Hdai. rewrite <- Hs. apply toLowerCase_idemp. }
  destruct (String.eqb_spec (toLowerCase (tokenAddress destToken))
              (tokenAddress dai)) as [Hd | _]; [| reflexivity].
  exfalso. apply Hdai. rewrite <- Hd. apply toLowerCase_idemp.
Qed.

Lemma getEventPool_dai_not_lower_case_witness :
  getEventPool (mkToken "0xDA1" 18)
    (eventPools [mkPoolConfig (mkToken "0xa0b" 6) "0xpsm" "0xjoin" "USDC-A"])
    (mkToken "0xDA1" 18) (mkToken "0xa0b" 6) = None.
Proof.
  apply (getEventPool_dai_not_lower_case (mkToken "0xDA1" 18)).
  discriminate.
Defined.

(** ** Execution parameters *)

Lemma getPsmParams_isGemSell (dai srcToken : string)
    (srcAmount destAmount : Z) (data : MakerPsmData) (side : SwapSide)
    (params : PsmParams) :
  getPsmParams dai srcToken srcAmount destAmount data side = Some params ->
  isGemSell params = negb (String.eqb (toLowerCase srcToken) dai).
Proof.
  unfold getPsmParams, ceilDiv.
  destruct (to18ConversionFactor (gemDecimals data)) as [f |];
    [| discriminate].
  cbn [mbind option_bind].
  destruct side, (String.eqb (toLowerCase srcToken) dai); cbn [negb].
  - destruct (bigDiv (srcAmount * WAD) (WAD + toll data)) as [g |];
      [| discriminate].
    cbn. destruct (bigDiv g f); [| discriminate].
    cbn. intros [= <-]. reflexivity.
  - intros [= <-]. reflexivity.
  - intros [= <-]. reflexivity.
  - destruct (bigDiv _ _); [| discriminate].
    cbn. intros [= <-]. reflexivity.
Qed.

(** Whenever [getSimpleParam] returns, the direction alone decides the
    call: with the asset as source it encodes [sellGem] and passes the
    join address last, with stable as source it encodes [buyGem] and
    passes the PSM address last; the user is the router and the sixth
    argument the PSM in both cases. *)
Theorem getSimpleParam_direction (dai augustusAddress srcToken : string)
    (srcAmount destAmount : Z) (data : MakerPsmData) (side : SwapSide)
    (call : SimpleParamInput) :
  getSimpleParam dai augustusAddress srcToken srcAmount destAmount data side
    = Some call ->
  swapFunction call =
    (if String.eqb (toLowerCase srcToken) dai then buyGem else sellGem) /\
  seventhArgument call =
    (if String.eqb (toLowerCase srcToken) dai then dataPsmAddress data
     else dataGemJoinAddress data) /\
  sixthArgument call = dataPsmAddress data /\
  swapUsr call = augustusAddress.
Proof.
  unfold getSimpleParam.
  destruct (getPsmParams dai srcToken srcAmount destAmount data side)
    as [params |] eqn:Hp; [| discriminate].
  apply getPsmParams_isGemSell in Hp.
  cbn. intros [= <-]. cbn. rewrite Hp.
  destruct (String.eqb (toLowerCase srcToken) dai); repeat split.
Qed.

Lemma getSimpleParam_direction_witness :
  let data := mkMakerPsmData 0 "0xpsm" "0xjoin" 6 in
  let call := mkSimpleParamInput sellGem "0xaugustus" 2000000 "0xpsm" "0xjoin" in
  swapFunction call = sellGem /\ seventhArgument call = "0xjoin" /\
  sixthArgument call = "0xpsm" /\ swapUsr call = "0xaugustus".
Proof.
  intros data call.
  apply (getSimpleParam_direction "0xdai" "0xaugustus" "0xA0b" 2000000 0
           data SELL call).
  reflexivity.
Defined.

(** The conversion factor is computed before the direction is looked
    at: for an asset with more than 18 decimals [getPsmParams] and
    [getSimpleParam] throw on every path, also on the two that never
    use the factor. *)
Theorem getPsmParams_more_than_18_decimals (dai augustusAddress srcToken : string)
    (srcAmount destAmount : Z) (data : MakerPsmData) (side : SwapSide) :
  18 < gemDecimals data ->
  getPsmParams dai srcToken srcAmount destAmount data side = None /\
  getSimpleParam dai augustusAddress srcToken srcAmount destAmount data side
    = None.
Proof.
  intros Hd.
  assert (getPsmParams dai srcToken srcAmount destAmount data side = None)
    as Hnone.
  { unfold getPsmParams, to18ConversionFactor.
    destruct (Z.ltb_spec (18 - gemDecimals data) 0); [reflexivity | lia]. }
  split; [exact Hnone |].
  unfold getSimpleParam. rewrite Hnone. reflexivity.
Qed.

Lemma getPsmParams_more_than_18_decimals_witness :
  getPsmParams "0xdai" "0xgem" 5 7 (mkMakerPsmData 0 "0xpsm" "0xjoin" 24) SELL
    = None.
Proof.
  apply (proj1 (getPsmParams_more_than_18_decimals "0xdai" "0xaugustus"
                  "0xgem" 5 7 (mkMakerPsmData 0 "0xpsm" "0xjoin" 24) SELL
                  ltac:(by_evaluation))).
Defined.

(** On the Asset->Stable buy path, with the sell fee in the quote
    record, the amount [getPsmParams] rebuilds is enough: when the pool
    can take it, selling it yields at least the stable amount wanted,
    and at most one native unit of the asset more. *)
Theorem getPsmParams_buy_gem_amount_suffices (dai srcToken psm join : string)
    (s : PoolState) (d f a srcAmount : Z) :
  String.eqb (toLowerCase srcToken) dai = false ->
  0 <= tin s < WAD -> 0 <= a ->
  to18ConversionFactor d = Some f ->
  exists p,
    getPsmParams dai srcToken srcAmount a
      (mkMakerPsmData (tin s) psm join d) BUY = Some (mkPsmParams true p) /\
    0 <= p /\
    (feasible false f SELL s p = true ->
     exists out, computePrice false f SELL s p = Some out /\
                 a <= out <= a + f).
Proof.
  intros Hdai Htin Ha Hf.
  pose proof (to18ConversionFactor_pos _ _ Hf) as Hpos.
  pose proof WAD_pos as HW.
  exists ((a * WAD + (WAD - tin s) * f - BN1) ÷ ((WAD - tin s) * f)).
  split; [| split].
  - unfold getPsmParams, ceilDiv. cbn [gemDecimals toll].
    rewrite Hf, Hdai. cbn.
    rewrite bigDiv_nonzero by nia. reflexivity.
  - apply Z.quot_pos; unfold BN1; nia.
  - intros Hfeas. unfold feasible, gemAmt18 in Hfeas.
    rewrite computePrice_SELL_gem. cbv zeta.
    unfold sellGemCheck in Hfeas. rewrite Hfeas.
    eexists. split; [reflexivity |].
    apply sell_of_rebuilt_amount; lia.
Qed.

Lemma getPsmParams_buy_gem_amount_suffices_witness :
  let s := mkPoolState (10 ^ 15) 0 0 (10 ^ 46) (10 ^ 27) in
  exists p,
    getPsmParams "0xdai" "0xusdc" 0 (10 ^ 18)
      (mkMakerPsmData (tin s) "0xpsm" "0xjoin" 6) BUY
      = Some (mkPsmParams true p) /\
    0 <= p /\
    (feasible false (10 ^ 12) SELL s p = true ->
     exists out, computePrice false (10 ^ 12) SELL s p = Some out /\
                 10 ^ 18 <= out <= 10 ^ 18 + 10 ^ 12).
Proof.
  intros s.
  apply (getPsmParams_buy_gem_amount_suffices "0xdai" "0xusdc" "0xpsm"
           "0xjoin" s 6 (10 ^ 12) (10 ^ 18) 0);
    [reflexivity | by_evaluation | by_evaluation | reflexivity].
Defined.

Lemma getPsmParams_sell_dai_exact_witness :
  let s := mkPoolState 0 (10 ^ 15) (10 ^ 24) (5 * 10 ^ 51) (10 ^ 27) in
  exists q,
    computePrice true (10 ^ 12) SELL s (100 * 10 ^ 18) = Some q /\
    getPsmParams "0xdai" "0xDAI" (100 * 10 ^ 18) 0
      (mkMakerPsmData (tout s) "0xpsm" "0xjoin" 6) SELL
      = Some (mkPsmParams false q).
Proof.
  intros s.
  apply (getPsmParams_sell_dai_exact "0xdai" "0xDAI" "0xpsm" "0xjoin" s 6
           (10 ^ 12) (100 * 10 ^ 18) 0);
    [reflexivity | by_evaluation | reflexivity | reflexivity].
Defined.

Lemma getPsmParams_buy_gem_within_one_witness :
  let s := mkPoolState (10 ^ 15) 0 0 (10 ^ 46) (10 ^ 27) in
  exists q p,
    computePrice false (10 ^ 12) BUY s (10 ^ 18) = Some q /\
    getPsmParams "0xdai" "0xusdc" 0 (10 ^ 18)
      (mkMakerPsmData (tin s) "0xpsm" "0xjoin" 6) BUY
      = Some (mkPsmParams true p) /\
    q <= p <= q + 1.
Proof.
  intros s.
  apply (getPsmParams_buy_gem_within_one "0xdai" "0xusdc" "0xpsm" "0xjoin"
           s 6 (10 ^ 12) (10 ^ 18) 0);
    [reflexivity | by_evaluation | by_evaluation | reflexivity | reflexivity].
Defined.

(** ** Reading the state from the chain *)

(** The call list has three calls per pool, in the order of the pools:
    [tin] and [tout] on the pool's PSM, then [ilks] on the vat with the
    pool's identifier. *)
Theorem getOnChainState_callData_layout (poolConfigs : list PoolConfig)
    (vatAddress : string) :
  length (getOnChainState_callData poolConfigs vatAddress) =
    (3 * length poolConfigs)%nat /\
  (forall (k : nat) (c : PoolConfig), poolConfigs !! k = Some c ->
     getOnChainState_callData poolConfigs vatAddress !! (3 * k)%nat
       = Some (mkCall (psmAddress c) TinCall) /\
     getOnChainState_callData poolConfigs vatAddress !! (3 * k + 1)%nat
       = Some (mkCall (psmAddress c) ToutCall) /\
     getOnChainState_callData poolConfigs vatAddress !! (3 * k + 2)%nat
       = Some (mkCall vatAddress (IlksCall (identifier c)))).
Proof.
  unfold getOnChainState_callData. split.
  - induction poolConfigs as [| c l IH]; [reflexivity |].
    cbn [map concat]. rewrite length_app, IH. cbn. lia.
  - induction poolConfigs as [| c0 l IH]; intros k c Hk.
    + rewrite lookup_nil in Hk. discriminate.
    + cbn [map concat]. destruct k as [| k].
      * injection Hk as ->. repeat split.
      * cbn in Hk. specialize (IH k c Hk).
        replace (3 * S k)%nat with (3 + 3 * k)%nat by lia.
        replace (3 + 3 * k + 1)%nat with (3 + (3 * k + 1))%nat by lia.
        replace (3 + 3 * k + 2)%nat with (3 + (3 * k + 2))%nat by lia.
        exact IH.
Qed.

Lemma getOnChainState_decode_shift (dec : Decoder) (pre returnData : list string)
    (i : nat) (poolConfigs : list PoolConfig) :
  getOnChainState_decode dec (pre ++ returnData) (length pre + i) poolConfigs =
  getOnChainState_decode dec returnData i poolConfigs.
Proof.
  assert (forall j, (pre ++ returnData) !! (length pre + j)%nat
                    = returnData !! j) as Hlook.
  { intros j. rewrite lookup_app_r by lia. f_equal. lia. }
  revert i. induction poolConfigs as [| c l IH]; intros i; [reflexivity |].
  cbn [getOnChainState_decode].
  rewrite <- !Nat.add_succ_r. rewrite !Hlook, IH. reflexivity.
Qed.

Lemma getOnChainState_decode_cons (dec : Decoder) (returnData : list string)
    (i : nat) (c : PoolConfig) (l : list PoolConfig) :
  getOnChainState_decode dec returnData i (c :: l) =
    tin ← returnData !! i ≫= decodeTin dec;
    tout ← returnData !! S i ≫= decodeTout dec;
    ilks ← returnData !! S (S i) ≫= decodeIlks dec;
    states ← getOnChainState_decode dec returnData (S (S (S i))) l;
    Some (mkPoolState tin tout (ilkArt ilks) (ilkLine ilks) (ilkRate ilks)
            :: states).
Proof. reflexivity. Qed.

Lemma getOnChainState_decode_short (dec : Decoder) (returnData : list string)
    (l : list PoolConfig) (c : PoolConfig) (i : nat) :
  (length returnData < i + 3 * length (c :: l))%nat ->
  getOnChainState_decode dec returnData i (c :: l) = None.
Proof.
  revert c i. induction l as [| c' l IH]; intros c i Hlen;
    rewrite getOnChainState_decode_cons;
    (destruct (returnData !! i ≫= decodeTin dec); [| reflexivity]);
    cbn [mbind option_bind];
    (destruct (returnData !! S i ≫= decodeTout dec); [| reflexivity]);
    cbn [mbind option_bind];
    (destruct (returnData !! S (S i) ≫= decodeIlks dec) eqn:Hilks;
       [| reflexivity]);
    cbn [mbind option_bind].
  - exfalso. cbn in Hlen.
    destruct (returnData !! S (S i)) eqn:Hl; [| discriminate].
    apply lookup_lt_Some in Hl. lia.
  - rewrite IH by (cbn [length] in *; lia). reflexivity.
Qed.

Lemma getOnChainState_decode_length (dec : Decoder) (returnData : list string)
    (i : nat) (poolConfigs : list PoolConfig) (states : list PoolState) :
  getOnChainState_decode dec returnData i poolConfigs = Some states ->
  length states = length poolConfigs.
Proof.
  revert i states. induction poolConfigs as [| c l IH]; intros i states.
  - intros [= <-]. reflexivity.
  - cbn [getOnChainState_decode].
    destruct (returnData !! i ≫= decodeTin dec); [| discriminate].
    cbn [mbind option_bind].
    destruct (returnData !! S i ≫= decodeTout dec); [| discriminate].
    cbn [mbind option_bind].
    destruct (returnData !! S (S i) ≫= decodeIlks dec); [| discriminate].
    cbn [mbind option_bind].
    destruct (getOnChainState_decode dec returnData (S (S (S i))) l)
      as [rest |] eqn:Hrest; [| discriminate].
    cbn. intros [= <-]. cbn. f_equal. eapply IH. exact Hrest.
Qed.

(** The read yields one state per pool, in a list as long as the list
    of pools; and it throws when the multicall answers with fewer than
    three results per pool. *)
Theorem getOnChainState_one_state_per_pool
    (aggregate : list Call -> BlockTag -> option (list string))
    (dec : Decoder) (poolConfigs : list PoolConfig) (vatAddress : string)
    (blockNumber : BlockTag) :
  (forall states,
     getOnChainState aggregate dec poolConfigs vatAddress blockNumber
       = Some states ->
     length states = length poolConfigs) /\
  (forall returnData,
     aggregate (getOnChainState_callData poolConfigs vatAddress) blockNumber
       = Some returnData ->
     (length returnData < 3 * length poolConfigs)%nat ->
     getOnChainState aggregate dec poolConfigs vatAddress blockNumber = None).
Proof.
  unfold getOnChainState. split.
  - intros states.
    destruct (aggregate _ _) as [returnData |]; [| discriminate].
    cbn. apply getOnChainState_decode_length.
  - intros returnData -> Hlen. cbn.
    destruct poolConfigs as [| c l]; [cbn in Hlen; lia |].
    apply getOnChainState_decode_short. lia.
Qed.

Lemma getOnChainState_one_state_per_pool_witness :
  let cfg := mkPoolConfig (mkToken "0xa0b" 6) "0xpsm" "0xjoin" "USDC-A" in
  let dec := mkDecoder (fun _ => Some 0) (fun _ => Some 0)
               (fun _ => Some (mkIlk 0 0 0)) in
  getOnChainState (fun _ _ => Some ["0x00"; "0x00"]) dec [cfg] "0xvat" Latest
    = None.
Proof.
  intros cfg dec.
  apply (proj2 (getOnChainState_one_state_per_pool
                  (fun _ _ => Some ["0x00"; "0x00"]) dec [cfg] "0xvat" Latest)
           ["0x00"; "0x00"]);
    [reflexivity | cbn; lia].
Defined.

Lemma mapM_three {A B : Type} (f : A -> option B) (x y z : A) (l : list A) :
  mapM f (x :: y :: z :: l) =
    a ← f x; b ← f y; c ← f z; rest ← mapM f l; Some (a :: b :: c :: rest).
Proof.
  cbn. destruct (f x); [| reflexivity]. cbn.
  destruct (f y); [| reflexivity]. cbn.
  destruct (f z); [| reflexivity]. cbn.
  destruct (mapM f l); reflexivity.
Qed.

(** With a multicall that answers every call on its own and fails as a
    whole when one call fails, reading all pools in one batch is
    reading them one by one with [generateState]: the same states when
    every single read succeeds, a failure as soon as one fails. *)
Theorem getOnChainState_batch_is_pool_by_pool
    (exec : Z -> Call -> option string)
    (aggregate : list Call -> BlockTag -> option (list string))
    (dec : Decoder) (poolConfigs : list PoolConfig) (vatAddress : string)
    (blockNumber : Z) :
  (forall calls, aggregate calls (BlockNumber blockNumber)
                 = mapM (exec blockNumber) calls) ->
  getOnChainState aggregate dec poolConfigs vatAddress (BlockNumber blockNumber)
    = mapM (fun c => generateState aggregate dec c vatAddress blockNumber)
        poolConfigs.
Proof.
  intros Hagg. unfold generateState, getOnChainState.
  induction poolConfigs as [| c l IH]; [rewrite Hagg; reflexivity |].
  cbn [mapM]. rewrite <- IH. clear IH.
  rewrite !Hagg. unfold getOnChainState_callData. cbn [map concat app].
  fold (getOnChainState_callData l vatAddress).
  rewrite (mapM_three (exec blockNumber)).
  rewrite (mapM_three (exec blockNumber) _ _ _ []).
  destruct (exec blockNumber (mkCall (psmAddress c) TinCall)) as [r1 |];
    [| reflexivity].
  cbn [mbind option_bind].
  destruct (exec blockNumber (mkCall (psmAddress c) ToutCall)) as [r2 |];
    [| reflexivity].
  cbn [mbind option_bind].
  destruct (exec blockNumber (mkCall vatAddress (IlksCall (identifier c))))
    as [r3 |]; [| reflexivity].
  cbn [mbind option_bind mapM mret option_ret].
  cbn [getOnChainState_decode lookup list_lookup mbind option_bind].
  destruct (mapM (exec blockNumber) (getOnChainState_callData l vatAddress))
    as [rest |].
  - cbn [mbind option_bind getOnChainState_decode lookup list_lookup].
    destruct (decodeTin dec r1) as [t1 |]; [| reflexivity].
    cbn [mbind option_bind].
    destruct (decodeTout dec r2) as [t2 |]; [| reflexivity].
    cbn [mbind option_bind].
    destruct (decodeIlks dec r3) as [ilk |]; [| reflexivity].
    cbn [mbind option_bind lookup list_lookup].
    pose proof (getOnChainState_decode_shift dec [r1; r2; r3] rest 0 l)
      as Hshift.
    cbn [app length Nat.add] in Hshift. rewrite Hshift.
    destruct (getOnChainState_decode dec rest 0 l); reflexivity.
  - cbn [mbind option_bind].
    destruct (decodeTin dec r1) as [t1 |]; [| reflexivity].
    cbn [mbind option_bind].
    destruct (decodeTout dec r2) as [t2 |]; [| reflexivity].
    cbn [mbind option_bind].
    destruct (decodeIlks dec r3) as [ilk |]; reflexivity.
Qed.

Lemma getOnChainState_batch_is_pool_by_pool_witness :
  let exec := fun (_ : Z) (c : Call) =>
    Some (match callData c with TinCall => "1" | ToutCall => "2"
          | IlksCall _ => "3" end) in
  let aggregate := fun calls tag =>
    match tag with BlockNumber n => mapM (exec n) calls | Latest => None end in
  let dec := mkDecoder (fun _ => Some 1) (fun _ => Some 2)
               (fun _ => Some (mkIlk 3 4 5)) in
  let cfgs := [mkPoolConfig (mkToken "0xa0b" 6) "0xpsm1" "0xjoin1" "USDC-A";
               mkPoolConfig (mkToken "0x8e8" 18) "0xpsm2" "0xjoin2" "PAX-A"] in
  getOnChainState aggregate dec cfgs "0xvat" (BlockNumber 100) =
    mapM (fun c => generateState aggregate dec c "0xvat" 100) cfgs.
Proof.
  intros exec aggregate dec cfgs.
  apply (getOnChainState_batch_is_pool_by_pool exec aggregate dec cfgs
           "0xvat" 100).
  intros calls. reflexivity.
Defined.

(** ** Liquidity listing *)

(** For the stablecoin, [getTopPoolsForToken] lists every configured
    pool, however small [limit] is, when every pool has a non-zero
    rate; a single pool with a zero rate makes the whole listing
    throw. *)
Theorem getTopPoolsForToken_dai_all_or_nothing (dai : Token)
    (poolConfigs : list PoolConfig) (latest : PoolConfig -> PoolState)
    (tokenAddr : string) (limit : nat) :
  String.eqb (toLowerCase tokenAddr) (tokenAddress dai) = true ->
  (Forall (fun p => rate (latest p) <> 0) poolConfigs ->
   exists pools,
     getTopPoolsForToken dai poolConfigs latest tokenAddr limit = Some pools /\
     length pools = length poolConfigs) /\
  (Exists (fun p => rate (latest p) = 0) poolConfigs ->
   getTopPoolsForToken dai poolConfigs latest tokenAddr limit = None).
Proof.
  intros Hdai. split.
  - intros Hrates. eexists. split.
    + apply getTopPoolsForToken_dai; assumption.
    + apply length_map.
  - intros Hex. unfold getTopPoolsForToken. rewrite Hdai.
    apply mapM_None. apply Exists_exists in Hex as (p & Hin & Hp).
    apply Exists_exists. exists p. split; [exact Hin |].
    unfold minLiq, bigDiv. rewrite Hp. reflexivity.
Qed.

Lemma getTopPoolsForToken_dai_all_or_nothing_witness :
  let dai := mkToken "0xdai" 18 in
  let cfgs := [mkPoolConfig (mkToken "0xa0b" 6) "0xpsm1" "0xjoin1" "USDC-A";
               mkPoolConfig (mkToken "0x8e8" 18) "0xpsm2" "0xjoin2" "PAX-A"] in
  let latest := fun _ : PoolConfig =>
    mkPoolState 0 0 (10 ^ 24) (5 * 10 ^ 51) (10 ^ 27) in
  exists pools,
    getTopPoolsForToken dai cfgs latest "0xDAI" 1 = Some pools /\
    length pools = 2%nat.
Proof.
  intros dai cfgs latest.
  apply (proj1 (getTopPoolsForToken_dai_all_or_nothing dai cfgs latest
                  "0xDAI" 1 eq_refl)).
  repeat constructor; discriminate.
Defined.

(** For a token other than the stablecoin the listing has the pool
    registered under the token's lower-cased address, with the
    stablecoin as its connector, and is empty, without a read or an
    error, when no pool is registered under it. *)
Theorem getTopPoolsForToken_asset (dai : Token)
    (poolConfigs : list PoolConfig) (latest : PoolConfig -> PoolState)
    (tokenAddr : string) (limit : nat) :
  String.eqb (toLowerCase tokenAddr) (tokenAddress dai) = false ->
  (eventPools poolConfigs !! toLowerCase tokenAddr = None ->
   getTopPoolsForToken dai poolConfigs latest tokenAddr limit = Some []) /\
  (forall p, eventPools poolConfigs !! toLowerCase tokenAddr = Some p ->
     getTopPoolsForToken dai poolConfigs latest tokenAddr limit =
       (liq ← minLiq (latest p);
        Some [mkPoolLiquidity (psmAddress p) liq [dai]]) /\
     p ∈ poolConfigs).
Proof.
  intros Hdai. unfold getTopPoolsForToken. rewrite Hdai. split.
  - intros ->. reflexivity.
  - intros p Hp. rewrite Hp. split.
    + cbn. destruct (minLiq (latest p)); reflexivity.
    + unfold eventPools in Hp.
      apply eventPools_foldl_lookup in Hp as [[Hin _] | Hp]; [exact Hin |].
      rewrite lookup_empty in Hp. discriminate.
Qed.

Lemma getTopPoolsForToken_asset_witness :
  getTopPoolsForToken (mkToken "0xdai" 18)
    [mkPoolConfig (mkToken "0xa0b" 6) "0xpsm1" "0xjoin1" "USDC-A"]
    (fun _ => mkPoolState 0 0 0 0 0) "0xBEEF" 10 = Some [].
Proof.
  apply (proj1 (getTopPoolsForToken_asset (mkToken "0xdai" 18)
                  [mkPoolConfig (mkToken "0xa0b" 6) "0xpsm1" "0xjoin1" "USDC-A"]
                  (fun _ => mkPoolState 0 0 0 0 0) "0xBEEF" 10 eq_refl)).
  reflexivity.
Defined.

(** Half the liquidity figure can be traded either way: for a valid
    snapshot with a positive rate, the reported figure is [2 * n] for a
    whole number [n] of units that passes both the check for buying the
    asset from the pool and the check for selling it to the pool. *)
Theorem minLiq_half_is_tradeable (s : PoolState) :
  valid_snapshot s -> 0 < rate s -> Art s < 2 ^ 53 * 10 ^ 18 ->
  exists n, minLiq s = Some (Exact (2 * n)) /\ 0 <= n /\
            buyGemCheck s (n * 10 ^ 18) = true /\
            sellGemCheck s (n * 10 ^ 18) = true.
Proof.
  intros (Htin & Htout & HArt & Hline & _ & Hinv) Hrate Hsmall.
  assert ((line s - Art s * rate s) ÷ rate s
          = (line s - Art s * rate s) / rate s) as Esl
    by (apply Z.quot_div_nonneg; lia).
  pose proof (Z.div_mod (line s - Art s * rate s) (rate s) ltac:(lia)) as E1.
  pose proof (Z.mod_pos_bound (line s - Art s * rate s) (rate s) Hrate) as B1.
  assert (0 <= (line s - Art s * rate s) / rate s) as Hsl
    by (apply Z.div_pos; lia).
  set (m := Z.min (Art s) ((line s - Art s * rate s) / rate s)).
  assert (0 <= m <= Art s /\ m <= (line s - Art s * rate s) / rate s) as Hm
    by (subst m; lia).
  assert (m ÷ 10 ^ 18 = m / 10 ^ 18) as Eq
    by (apply Z.quot_div_nonneg; lia).
  pose proof (Z.div_mod m (10 ^ 18) ltac:(lia)) as E2.
  pose proof (Z.mod_pos_bound m (10 ^ 18) ltac:(lia)) as B2.
  assert (0 <= m / 10 ^ 18) as Hq by (apply Z.div_pos; lia).
  exists (m / 10 ^ 18). split; [| split; [exact Hq | split]].
  - rewrite minLiq_eq by lia. rewrite Esl. fold m. rewrite Eq.
    unfold parseInt.
    destruct (Z.leb_spec (Z.abs (m / 10 ^ 18)) (2 ^ 53)); [reflexivity |].
    exfalso. nia.
  - unfold buyGemCheck. apply Z.leb_le. nia.
  - unfold sellGemCheck. apply Z.leb_le. nia.
Qed.

Lemma minLiq_half_is_tradeable_witness :
  let s := mkPoolState 0 0 (15 * 10 ^ 17) (10 ^ 46) (10 ^ 27) in
  exists n, minLiq s = Some (Exact (2 * n)) /\ 0 <= n /\
            buyGemCheck s (n * 10 ^ 18) = true /\
            sellGemCheck s (n * 10 ^ 18) = true.
Proof.
  intros s.
  apply (minLiq_half_is_tradeable s);
    [by_evaluation | by_evaluation | by_evaluation].
Defined.

(** ** Quotes with their record *)



(** ** Calls of [getPoolState] under any schedule *)

Lemma notStarted_insert (invs : list Invocation) (i : nat)
    (inv inv' : Invocation) :
  invs !! i = Some inv ->
  (notStarted (<[i := inv']> invs) + notStarted [inv])%nat =
  (notStarted invs + notStarted [inv'])%nat.
Proof.
  revert i. induction invs as [| x l IH]; intros i Hi.
  - rewrite lookup_nil in Hi. discriminate.
  - destruct i as [| i].
    + injection Hi as ->.
      change (<[0%nat := inv']> (inv :: l)) with (inv' :: l).
      destruct inv, inv'; cbn [notStarted]; lia.
    + cbn in Hi. specialize (IH i Hi).
      change (<[S i := inv']> (x :: l)) with (x :: <[i := inv']> l).
      remember (notStarted [inv]) as n1.
      remember (notStarted [inv']) as n2.
      destruct x; cbn [notStarted]; lia.
Qed.

Lemma resume_reads (chain : Z -> PoolState) (pool : PoolObject)
    (inv : Invocation) :
  (chainReads pool <= chainReads (resume chain pool inv).1)%nat /\
  (chainReads (resume chain pool inv).1
     + notStarted [(resume chain pool inv).2]
   <= chainReads pool + notStarted [inv])%nat.
Proof.
  destruct inv as [b | b | st]; cbn.
  - destruct (getState (store pool) b); cbn; lia.
  - lia.
  - lia.
Qed.

(** However the calls of [getPoolState] are interleaved, each issues at
    most one on-chain read: the count of reads never goes down, and it
    grows by at most the number of calls that had not yet started. *)
Theorem runSchedule_reads_bounded (chain : Z -> PoolState)
    (schedule : list nat) (pool : PoolObject) (invs : list Invocation) :
  (chainReads pool <= chainReads (runSchedule chain schedule pool invs).1
   <= chainReads pool + notStarted invs)%nat.
Proof.
  enough ((chainReads pool
             <= chainReads (runSchedule chain schedule pool invs).1)%nat /\
          (chainReads (runSchedule chain schedule pool invs).1
             + notStarted (runSchedule chain schedule pool invs).2
           <= chainReads pool + notStarted invs)%nat) by lia.
  revert pool invs. induction schedule as [| i rest IH]; intros pool invs.
  - cbn. lia.
  - destruct (invs !! i) as [inv |] eqn:Hi.
    + rewrite (runSchedule_cons _ _ _ _ _ _ Hi).
      destruct (resume_reads chain pool inv) as [R1 R2].
      pose proof (notStarted_insert invs i inv (resume chain pool inv).2 Hi).
      specialize (IH (resume chain pool inv).1
                    (<[i := (resume chain pool inv).2]> invs)).
      lia.
    + cbn [runSchedule]. rewrite Hi. apply IH.
Qed.
